(** * WhatsAppVibe: the keyword alarm of [whatsapp_alarm.py]

    A shallow embedding of the monitoring script and the properties of
    its text normaliser, keyword matcher, snapshot reader, conversation
    locator and polling loop.

    Strings are Python [str] values whose code points are below 256
    (Rocq's [string] of 8-bit [ascii]); on that range the whitespace
    class of [str.strip] and of the regular expression [\s], and the
    case mapping of [str.lower], are the ones written out below. *)

From Stdlib Require Import ZArith NArith Ascii String List Bool Lia.
From stdpp Require Import base decidable option list gmap strings.
Import ListNotations.

Local Open Scope string_scope.
Local Open Scope list_scope.

#[local] Set Warnings "-clear-no-such-hyp".

(** ** Python's [str] primitives used by the script *)

Module Py.

(** [str.isspace] per character; [str.strip] and [\s] use the same class:
    TAB..CR, FS..US, SPACE, NEL (0x85) and NBSP (0xA0). *)
Definition is_space (c : ascii) : bool :=
  let n := N_of_ascii c in
  ((9 <=? n) && (n <=? 13) || (28 <=? n) && (n <=? 32)
   || (n =? 133) || (n =? 160))%N.

(** [str.lower] per character: A..Z and the Latin-1 capitals 0xC0..0xDE
    (without the multiplication sign 0xD7) move up by 32. *)
Definition lower_char (c : ascii) : ascii :=
  let n := N_of_ascii c in
  if ((65 <=? n) && (n <=? 90)
      || (192 <=? n) && (n <=? 222) && negb (n =? 215))%N
  then ascii_of_N (n + 32) else c.

Fixpoint lower (s : string) : string :=
  match s with
  | EmptyString => EmptyString
  | String c r => String (lower_char c) (lower r)
  end.

(** [re.sub(r"\s+", " ", s)]: every maximal run of whitespace becomes
    one space.  [in_run] tells that the previous character belonged to
    the run that has already been replaced. *)
Fixpoint sub_ws_from (in_run : bool) (s : string) : string :=
  match s with
  | EmptyString => EmptyString
  | String c r =>
      if is_space c
      then if in_run then sub_ws_from true r
           else String " " (sub_ws_from true r)
      else String c (sub_ws_from false r)
  end.

Definition sub_ws (s : string) : string := sub_ws_from false s.

Fixpoint lstrip (s : string) : string :=
  match s with
  | EmptyString => EmptyString
  | String c r => if is_space c then lstrip r else s
  end.

Fixpoint rstrip (s : string) : string :=
  match s with
  | EmptyString => EmptyString
  | String c r =>
      match rstrip r with
      | EmptyString => if is_space c then EmptyString else String c EmptyString
      | r' => String c r'
      end
  end.

(** [s.strip()] *)
Definition strip (s : string) : string := rstrip (lstrip s).

Fixpoint startswith (p s : string) : bool :=
  match p, s with
  | EmptyString, _ => true
  | String a p', String b s' => if Ascii.eqb a b then startswith p' s' else false
  | String _ _, EmptyString => false
  end.

(** [needle in s] *)
Fixpoint contains (needle s : string) : bool :=
  startswith needle s
  || match s with
     | EmptyString => false
     | String _ r => contains needle r
     end.

Fixpoint drop (n : nat) (s : string) : string :=
  match n, s with
  | O, _ => s
  | S n', String _ r => drop n' r
  | S _, EmptyString => EmptyString
  end.

(** The cut of [s] at the leftmost occurrence of a non-empty [sep]:
    the text before it and the text after it. *)
Fixpoint partition (sep s : string) : option (string * string) :=
  if startswith sep s then Some (EmptyString, drop (String.length sep) s)
  else match s with
       | EmptyString => None
       | String c r =>
           match partition sep r with
           | Some (before, after) => Some (String c before, after)
           | None => None
           end
       end.

(** [s.split(sep, 1)] for a non-empty [sep]: one piece when [sep] does
    not occur, otherwise the two pieces around its leftmost occurrence. *)
Definition split1 (sep s : string) : list string :=
  match partition sep s with
  | Some (before, after) => [before; after]
  | None => [s]
  end.

(** Truth value of a string: [bool(s)]. *)
Definition truthy (s : string) : bool :=
  match s with EmptyString => false | _ => true end.

(** [" ".join(ws)] *)
Fixpoint join_sp (ws : list string) : string :=
  match ws with
  | [] => EmptyString
  | [w] => w
  | w :: rest => w ++ String " " (join_sp rest)
  end.

Definition starts_ws (s : string) : bool :=
  match s with
  | EmptyString => true
  | String c _ => is_space c
  end.

(** [s.split()]: the maximal runs of characters that are not whitespace. *)
Fixpoint words (s : string) : list string :=
  match s with
  | EmptyString => []
  | String c r =>
      if is_space c then words r
      else if starts_ws r then String c EmptyString :: words r
      else match words r with
           | w :: ws => String c w :: ws
           | [] => [String c EmptyString]
           end
  end.

End Py.

(** ** Text normaliser and keyword matcher *)

(** [normalize]: [re.sub(r"\s+", " ", text).strip().lower()] *)
Definition normalize (text : string) : string :=
  Py.lower (Py.strip (Py.sub_ws text)).

(** The [for kw in keywords] loop of [keyword_hit], over the already
    normalised text [t]. *)
Fixpoint keyword_scan (t : string) (keywords : list string) : option string :=
  match keywords with
  | [] => None
  | kw :: rest =>
      if Py.contains (normalize kw) t then Some kw else keyword_scan t rest
  end.

Definition keyword_hit (text : string) (keywords : list string) : option string :=
  let t := normalize text in
  keyword_scan t keywords.

(** ** Exceptions, observations of the outside world, and effects *)

(** The classes below [Exception] that the script can meet. *)
Inductive exception : Type :=
| StaleElementReferenceException
| TimeoutException
| NoSuchElementException
| WebDriverException (msg : string)
| RuntimeError (msg : string).

(** What a [raise] carries: an [Exception], or [KeyboardInterrupt], which
    derives from [BaseException] only and passes every [except Exception]. *)
Inductive raised : Type :=
| Exc (e : exception)
| KeyboardInterrupt.

(** What one call into the browser driver, the sound device or the clock
    does, as seen by the script. *)
Inductive obs (A : Type) : Type :=
| Returns (a : A)
| Throws (e : raised).
Arguments Returns {A} a.
Arguments Throws {A} e.

(** The lines the script prints; time stamps and layout are left out. *)
Inductive line : Type :=
| InfoWaiting
| InfoReady
| InfoOpening (group : string)
| InfoOpened (attempt : nat)
| WarnStale (attempt : nat)
| WarnOpenFailed (attempt : nat) (e : exception)
| ProbeReport
| DebugStarted
| DebugSeeded (n : nat)
| MessageLine (sender text : string)
| KeywordMatched (kw : string)
| PlayingAlarm
| WarnWav (e : exception)
| InfoStopped
| ErrorLine (e : exception).

Inductive event : Type :=
| Print (l : line)
| Sleep (ms : Z)
| PollSleep
| Beep (freq ms : Z)
| PlaySound (path : string)
| Quit.

(** How a run over a finite prefix of observations has ended: the code
    returned, raised, or is [Pending], still inside [while True] when
    the observations run out. *)
Inductive result (A : Type) : Type :=
| Ok (a : A)
| Raise (e : raised)
| Pending.
Arguments Ok {A} a.
Arguments Raise {A} e.
Arguments Pending {A}.

(** A statement of the script: it reads and updates [seen_ids], appends
    to the output, and ends in a [result]. *)
Definition Prog (A : Type) : Type :=
  gset string -> gset string * list event * result A.

Definition ret {A} (a : A) : Prog A := fun seen => (seen, [], Ok a).

Definition bind {A B} (m : Prog A) (k : A -> Prog B) : Prog B :=
  fun seen =>
    match m seen with
    | (seen1, t1, Ok a) =>
        let '(seen2, t2, r) := k a seen1 in (seen2, t1 ++ t2, r)
    | (seen1, t1, Raise e) => (seen1, t1, Raise e)
    | (seen1, t1, Pending) => (seen1, t1, Pending)
    end.

Declare Scope prog_scope.
Delimit Scope prog_scope with prog.
Notation "x <- m ;; k" := (bind m (fun x => k))
  (at level 100, m at next level, right associativity) : prog_scope.
Notation "m ;; k" := (bind m (fun _ => k))
  (at level 100, right associativity) : prog_scope.
Local Open Scope prog_scope.

Definition emit (ev : event) : Prog unit := fun seen => (seen, [ev], Ok tt).
Definition print (l : line) : Prog unit := emit (Print l).
Definition raise {A} (e : raised) : Prog A := fun seen => (seen, [], Raise e).
Definition pending {A} : Prog A := fun seen => (seen, [], Pending).

Definition call {A} (o : obs A) : Prog A :=
  match o with
  | Returns a => ret a
  | Throws e => raise e
  end.

(** [try: m  except Exception as e: h e] *)
Definition try_except {A} (m : Prog A) (h : exception -> Prog A) : Prog A :=
  fun seen =>
    match m seen with
    | (seen1, t1, Raise (Exc e)) =>
        let '(seen2, t2, r) := h e seen1 in (seen2, t1 ++ t2, r)
    | other => other
    end.

Definition get_seen : Prog (gset string) := fun seen => (seen, [], Ok seen).
Definition set_seen (s : gset string) : Prog unit := fun _ => (s, [], Ok tt).
(** [seen_ids.add(msg_id)] *)
Definition add_seen (msg_id : string) : Prog unit :=
  fun seen => ({[ msg_id ]} ∪ seen, [], Ok tt).

(** [for x in l: body x] *)
Fixpoint for_each {X} (l : list X) (body : X -> Prog unit) : Prog unit :=
  match l with
  | [] => ret tt
  | x :: rest => body x ;; for_each rest body
  end.

(** [while True: body], run over the observations of its first
    [length os] iterations. *)
Fixpoint while_true {O} (os : list O) (body : O -> Prog unit) : Prog unit :=
  match os with
  | [] => pending
  | o :: rest => body o ;; while_true rest body
  end.

(** ** Configuration *)

(** [Config]; [poll_seconds] is a float that is only handed to
    [time.sleep], which shows as the event [PollSleep]. *)
Record Config : Type := {
  group_name : string;
  keywords : list string;
  alarm_beeps : Z;
  beep_freq_hz : Z;
  beep_ms : Z;
  wav_path : option string
}.

Definition cfg : Config := {|
  group_name := "OH DX-klusteri";
  keywords := ["alert"; "urgent"];
  alarm_beeps := 6;
  beep_freq_hz := 1400;
  beep_ms := 300;
  wav_path := None
|}.

(** ** Snapshot reader *)

(** One message bubble of the page: what reading its attribute
    [data-pre-plain-text] and its visible text does. *)
Record element : Type := {
  pre_plain_text : obs (option string);
  visible_text : obs (option string)
}.

(** [(msg_id, sender, text)] *)
Definition message : Type := (string * string * string)%type.
Definition msg_id (m : message) : string := m.1.1.
Definition msg_sender (m : message) : string := m.1.2.
Definition msg_text (m : message) : string := m.2.

(** [x or ""] *)
Definition or_empty (x : option string) : string := default EmptyString x.

(** Lines 191-195: the sender out of the trimmed metadata. *)
Definition parse_sender (meta : string) : string :=
  if Py.contains "] " meta then
    let after := List.last (Py.split1 "] " meta) EmptyString in
    if Py.contains ": " after
    then Py.strip (List.hd EmptyString (Py.split1 ": " after))
    else "Unknown"
  else "Unknown".

(** The body of the [try] of [get_messages] for one block: [None] is the
    [continue] on an empty text. *)
Definition extract (b : element) : Prog (option message) :=
  raw_meta <- call (pre_plain_text b) ;;
  let meta := Py.strip (or_empty raw_meta) in
  let sender := parse_sender meta in
  raw_text <- call (visible_text b) ;;
  let text := Py.strip (or_empty raw_text) in
  if negb (Py.truthy text) then ret None
  else ret (Some (String.append meta (String.append "|" text), sender, text)).

Fixpoint get_messages_loop (blocks : list element) (results : list message)
  : Prog (list message) :=
  match blocks with
  | [] => ret results
  | b :: rest =>
      r <- try_except (extract b) (fun _ => ret None) ;;
      get_messages_loop rest
        (match r with Some m => results ++ [m] | None => results end)
  end.

(** [get_messages]: [find_elements] is called outside the [try]. *)
Definition get_messages (found : obs (list element)) : Prog (list message) :=
  blocks <- call found ;;
  get_messages_loop blocks [].

(** ** Alarm emitter *)

(** What the sound device does during one poll cycle: [winsound.Beep]
    at its first call, and [winsound.PlaySound]. *)
Record sound : Type := {
  beep_call : obs unit;
  play_sound_call : obs unit
}.

(** [for _ in range(n): Beep(...); sleep(0.05)] *)
Fixpoint beeps (n : nat) (c : Config) : Prog unit :=
  match n with
  | O => ret tt
  | S k => emit (Beep (beep_freq_hz c) (beep_ms c)) ;; emit (Sleep 50) ;; beeps k c
  end.

Definition play_alarm (c : Config) (dev : sound) : Prog unit :=
  print PlayingAlarm ;;
  (match Z.to_nat (alarm_beeps c) with
   | O => ret tt
   | S k =>
       call (beep_call dev) ;;
       beeps (S k) c
   end) ;;
  match wav_path c with
  | Some path =>
      if Py.truthy path
      then try_except (call (play_sound_call dev) ;; emit (PlaySound path))
                      (fun e => print (WarnWav e))
      else ret tt
  | None => ret tt
  end.

(** ** Conversation locator *)

(** What the driver does at each step of one attempt to open the chat. *)
Record attempt : Type := {
  search_primary : obs unit;
  search_fallback : obs unit;
  search_click : obs unit;
  keys_select_all : obs unit;
  keys_backspace : obs unit;
  keys_group_name : obs unit;
  chat_present : obs unit;
  chat_clickable : obs unit;
  chat_click : obs unit;
  composer_present : obs unit
}.

(** The body of the outer [try] of [open_group_chat] up to its [return]. *)
Definition run_attempt (a : attempt) : Prog unit :=
  (match search_primary a with
   | Throws (Exc TimeoutException) => call (search_fallback a)
   | o => call o
   end) ;;
  call (search_click a) ;;
  emit (Sleep 200) ;;
  call (keys_select_all a) ;;
  call (keys_backspace a) ;;
  call (keys_group_name a) ;;
  emit (Sleep 1000) ;;
  call (chat_present a) ;;
  call (chat_clickable a) ;;
  call (chat_click a) ;;
  call (composer_present a).

Definition giving_up : exception :=
  RuntimeError
    "Could not open group chat after multiple retries. WhatsApp DOM likely changed.".

(** [for attempt in range(n, n + budget)] followed by the final [raise];
    [tries n] is what the driver does during attempt [n]. *)
Fixpoint attempt_loop (tries : nat -> attempt) (n budget : nat) : Prog unit :=
  match budget with
  | O => raise (Exc giving_up)
  | S rest =>
      fun seen =>
        match run_attempt (tries n) seen with
        | (seen1, t, Ok _) => (seen1, t ++ [Print (InfoOpened n)], Ok tt)
        | (seen1, t, Raise (Exc StaleElementReferenceException)) =>
            let '(seen2, t2, r) := attempt_loop tries (S n) rest seen1 in
            (seen2, t ++ [Print (WarnStale n); Sleep 600] ++ t2, r)
        | (seen1, t, Raise (Exc e)) =>
            let '(seen2, t2, r) := attempt_loop tries (S n) rest seen1 in
            (seen2, t ++ [Print (WarnOpenFailed n e); Sleep 800] ++ t2, r)
        | other => other
        end
  end.

Definition open_group_chat (tries : nat -> attempt) (group : string) : Prog unit :=
  print (InfoOpening group) ;;
  attempt_loop tries 1 5.

(** ** Monitoring loop *)

(** What the driver does during [scroll_chat_to_bottom]. *)
Record scroll : Type := {
  find_composer : obs unit;
  composer_click : obs unit;
  key_end : obs unit;
  key_ctrl_end : obs unit
}.

Definition scroll_chat_to_bottom (s : scroll) : Prog unit :=
  try_except
    (call (find_composer s) ;;
     call (composer_click s) ;;
     emit (Sleep 50) ;;
     call (key_end s) ;;
     call (key_ctrl_end s))
    (fun _ => ret tt).

(** What the outside world does during one iteration of [while True]. *)
Record cycle : Type := {
  c_scroll : scroll;
  c_found : obs (list element);
  c_sound : sound;
  c_sleep : obs unit
}.

(** The body of [for msg_id, sender, text in new_items]. *)
Definition alert (c : Config) (dev : sound) (m : message) : Prog unit :=
  add_seen (msg_id m) ;;
  print (MessageLine (msg_sender m) (msg_text m)) ;;
  match keyword_hit (msg_text m) (keywords c) with
  | Some hit =>
      if Py.truthy hit
      then print (KeywordMatched hit) ;; play_alarm c dev
      else ret tt
  | None => ret tt
  end.

(** [mid not in seen_ids] *)
Definition unseen (seen : gset string) (m : message) : bool :=
  bool_decide (msg_id m ∉ seen).

(** The body of [while True]. *)
Definition poll_cycle (c : Config) (o : cycle) : Prog unit :=
  scroll_chat_to_bottom (c_scroll o) ;;
  msgs <- get_messages (c_found o) ;;
  seen <- get_seen ;;
  let new_items := List.filter (unseen seen) msgs in
  for_each new_items (alert c (c_sound o)) ;;
  call (c_sleep o) ;;
  emit PollSleep.

(** Lines 246-248 and 252-256: fill [seen_ids] from one read. *)
Definition seed (found : obs (list element)) : Prog unit :=
  set_seen ∅ ;;
  msgs <- get_messages found ;;
  for_each msgs (fun m => add_seen (msg_id m)).

(** What the outside world does during one run of [main]. *)
Record world : Type := {
  w_build : obs unit;
  w_get : obs unit;
  w_ready : obs unit;
  w_tries : nat -> attempt;
  w_probe : obs unit;
  w_seed_first : obs (list element);
  w_seed_second : obs (list element);
  w_cycles : list cycle;
  w_quit : obs unit
}.

Definition wait_for_whatsapp_ready (w : world) : Prog unit :=
  call (w_get w) ;;
  print InfoWaiting ;;
  call (w_ready w) ;;
  print InfoReady.

Definition probe_dom (w : world) : Prog unit :=
  call (w_probe w) ;;
  print ProbeReport.

(** Lines 260-279. *)
Definition monitor (c : Config) (os : list cycle) : Prog unit :=
  while_true os (poll_cycle c).

(** Lines 239-243: everything before the seeding. *)
Definition startup (c : Config) (w : world) : Prog unit :=
  wait_for_whatsapp_ready w ;;
  emit (Sleep 1500) ;;
  open_group_chat (w_tries w) (group_name c) ;;
  probe_dom w.

(** Lines 245-258: the two seeding passes and their two debug lines. *)
Definition seeding (first second : obs (list element)) : Prog unit :=
  seed first ;;
  print DebugStarted ;;
  seed second ;;
  seen <- get_seen ;;
  print (DebugSeeded (size seen)).

(** The [try] block of [main]. *)
Definition main_try (c : Config) (w : world) : Prog unit :=
  startup c w ;;
  seeding (w_seed_first w) (w_seed_second w) ;;
  monitor c (w_cycles w).

(** [except KeyboardInterrupt] and [except Exception as e] of [main]. *)
Definition handlers (m : Prog unit) : Prog unit :=
  fun seen =>
    match m seen with
    | (seen1, t, Raise KeyboardInterrupt) => (seen1, t ++ [Print InfoStopped], Ok tt)
    | (seen1, t, Raise (Exc e)) => (seen1, t ++ [Print (ErrorLine e)], Ok tt)
    | other => other
    end.

(** [try: m  finally: f].  A run that is still inside [m] has not
    reached [f]. *)
Definition finally (m f : Prog unit) : Prog unit :=
  fun seen =>
    match m seen with
    | (seen1, t, Pending) => (seen1, t, Pending)
    | (seen1, t, Ok _) =>
        let '(seen2, t2, r) := f seen1 in (seen2, t ++ t2, r)
    | (seen1, t, Raise e) =>
        let '(seen2, t2, r) := f seen1 in
        (seen2, t ++ t2, match r with Ok _ => Raise e | other => other end)
    end.

(** The [finally] block: [try: driver.quit()  except Exception: pass]. *)
Definition release (w : world) : Prog unit :=
  try_except (emit Quit ;; call (w_quit w)) (fun _ => ret tt).

(** Line 236, [driver = build_driver(cfg)]: the options, the download
    of the Chrome driver and the start of the browser, as one call that
    returns the driver or raises. *)
Definition build_driver (w : world) : Prog unit :=
  call (w_build w).

(** [main]: the driver is built before the [try], so what
    [build_driver] raises is met by no handler and no [finally]. *)
Definition main (c : Config) (w : world) : Prog unit :=
  build_driver w ;;
  finally (handlers (main_try c w)) (release w).

(** ** Sample observations *)

Definition bubble (meta text : string) : element :=
  {| pre_plain_text := Returns (Some meta); visible_text := Returns (Some text) |}.

Definition stale_bubble : element :=
  {| pre_plain_text := Throws (Exc StaleElementReferenceException);
     visible_text := Returns (Some "gone") |}.

Definition smooth_attempt : attempt :=
  {| search_primary := Returns tt; search_fallback := Returns tt;
     search_click := Returns tt; keys_select_all := Returns tt;
     keys_backspace := Returns tt; keys_group_name := Returns tt;
     chat_present := Returns tt; chat_clickable := Returns tt;
     chat_click := Returns tt; composer_present := Returns tt |}.

Definition stale_attempt : attempt :=
  {| search_primary := Returns tt; search_fallback := Returns tt;
     search_click := Returns tt; keys_select_all := Returns tt;
     keys_backspace := Returns tt; keys_group_name := Returns tt;
     chat_present := Returns tt; chat_clickable := Returns tt;
     chat_click := Throws (Exc StaleElementReferenceException);
     composer_present := Returns tt |}.

Definition timeout_attempt : attempt :=
  {| search_primary := Throws (Exc TimeoutException);
     search_fallback := Throws (Exc TimeoutException);
     search_click := Returns tt; keys_select_all := Returns tt;
     keys_backspace := Returns tt; keys_group_name := Returns tt;
     chat_present := Returns tt; chat_clickable := Returns tt;
     chat_click := Returns tt; composer_present := Returns tt |}.

Definition smooth_scroll : scroll :=
  {| find_composer := Returns tt; composer_click := Returns tt;
     key_end := Returns tt; key_ctrl_end := Returns tt |}.

Definition broken_scroll : scroll :=
  {| find_composer := Throws (Exc NoSuchElementException);
     composer_click := Returns tt;
     key_end := Returns tt; key_ctrl_end := Returns tt |}.

Definition working_sound : sound :=
  {| beep_call := Returns tt; play_sound_call := Returns tt |}.

Definition quiet_cycle (blocks : list element) : cycle :=
  {| c_scroll := smooth_scroll; c_found := Returns blocks;
     c_sound := working_sound; c_sleep := Returns tt |}.

Definition quiet_world (first : list element) (os : list cycle) : world :=
  {| w_build := Returns tt; w_get := Returns tt; w_ready := Returns tt;
     w_tries := fun _ => smooth_attempt; w_probe := Returns tt;
     w_seed_first := Returns first; w_seed_second := Returns first;
     w_cycles := os; w_quit := Returns tt |}.

Definition short_cfg : Config :=
  {| group_name := "g"; keywords := ["urgent"]; alarm_beeps := 1;
     beep_freq_hz := 1400; beep_ms := 300; wav_path := None |}.

Definition scenario : world :=
  quiet_world []
    [quiet_cycle [bubble "[09:10, 1/1/2024] Alice: " "hello"];
     quiet_cycle [bubble "[09:10, 1/1/2024] Alice: " "hello";
                  bubble "[09:11, 1/1/2024] Bob: " "this is Urgent"];
     quiet_cycle [bubble "[09:10, 1/1/2024] Alice: " "hello";
                  bubble "[09:11, 1/1/2024] Bob: " "this is Urgent"]].


(** ** Notions used in the statements *)

(** [needle] occurs somewhere in [s]. *)
Definition substring (needle s : string) : Prop :=
  exists a b, s = String.append a (String.append needle b).

(** The keyword, once normalised, occurs in the normalised text. *)
Definition matches (text kw : string) : Prop :=
  substring (normalize kw) (normalize text).

(** A character string with no whitespace in it. *)
Fixpoint no_space (s : string) : bool :=
  match s with
  | EmptyString => true
  | String c r => negb (Py.is_space c) && no_space r
  end.

(** A word: not empty and free of whitespace. *)
Definition is_word (w : string) : bool := Py.truthy w && no_space w.

(** The keyword normalises to the empty string. *)
Definition blank (kw : string) : bool := negb (Py.truthy (normalize kw)).

(** The first keyword of the list that normalises to the empty string. *)
Definition first_blank (kws : list string) : option string := List.find blank kws.


(** What a block adds to a snapshot: its message when both reads return
    and the trimmed text is not empty, nothing otherwise. *)
Definition readable (b : element) : option message :=
  match pre_plain_text b, visible_text b with
  | Returns raw_meta, Returns raw_text =>
      let meta := Py.strip (or_empty raw_meta) in
      let text := Py.strip (or_empty raw_text) in
      if Py.truthy text
      then Some (String.append meta (String.append "|" text), parse_sender meta, text)
      else None
  | _, _ => None
  end.

(** The call does not raise [KeyboardInterrupt]. *)
Definition calm_obs {A} (o : obs A) : bool :=
  match o with Throws KeyboardInterrupt => false | _ => true end.

Definition returns {A} (o : obs A) : bool :=
  match o with Returns _ => true | Throws _ => false end.

(** Reading the block fails, if at all, with an [Exception]. *)
Definition calm (b : element) : bool :=
  calm_obs (pre_plain_text b) && calm_obs (visible_text b).

Definition calm_scroll (s : scroll) : bool :=
  calm_obs (find_composer s) && calm_obs (composer_click s)
  && calm_obs (key_end s) && calm_obs (key_ctrl_end s).

(** The rest of a cycle, around the scroll hint and the reads of the
    single blocks, works: the blocks are enumerated, the sound device
    beeps, and the sleep is not interrupted. *)
Definition steady (o : cycle) : bool :=
  match c_found o with
  | Returns blocks => forallb calm blocks
  | Throws _ => false
  end
  && returns (beep_call (c_sound o))
  && calm_obs (play_sound_call (c_sound o))
  && returns (c_sleep o).

(** A cycle in which nothing raises past the handlers inside the cycle. *)
Definition calm_cycle (o : cycle) : bool :=
  calm_scroll (c_scroll o) && steady o.

(** The messages of the snapshot taken in a cycle. *)
Definition shown (o : cycle) : list message :=
  match c_found o with
  | Returns blocks => omap readable blocks
  | Throws _ => []
  end.

Definition ids (ms : list message) : gset string :=
  list_to_set (map msg_id ms).

(** The messages handled as new over a run of cycles, in order: in each
    cycle those of its snapshot whose id was not in [seen_ids] when the
    snapshot was taken. *)
Fixpoint news (os : list cycle) (seen : gset string) : list message :=
  match os with
  | [] => []
  | o :: rest =>
      List.filter (unseen seen) (shown o) ++ news rest (ids (shown o) ∪ seen)
  end.

(** The lines by which a message shows: its own line, the keyword line,
    and the line that opens the alarm. *)
Definition is_output (ev : event) : bool :=
  match ev with
  | Print (MessageLine _ _) | Print (KeywordMatched _) | Print PlayingAlarm => true
  | _ => false
  end.

Definition outputs (t : list event) : list event := List.filter is_output t.

(** What handling one new message puts out. *)
Definition expected (c : Config) (m : message) : list event :=
  Print (MessageLine (msg_sender m) (msg_text m))
  :: match keyword_hit (msg_text m) (keywords c) with
     | Some hit =>
         if Py.truthy hit then [Print (KeywordMatched hit); Print PlayingAlarm]
         else []
     | None => []
     end.

(** The pauses between attempts: [time.sleep(0.6)] and [time.sleep(0.8)]. *)
Definition is_pause (ev : event) : bool :=
  match ev with
  | Sleep ms => (ms =? 600)%Z || (ms =? 800)%Z
  | _ => false
  end.

Definition pauses (t : list event) : nat := length (List.filter is_pause t).

(** How one attempt ends. *)
Definition outcome (a : attempt) : result unit := (run_attempt a ∅).2.

(** Every step of the attempt goes through: the search field is found,
    by the first selector or, after its timeout, by the second; it is
    clicked, cleared and filled; the entry of the chat is present,
    clickable and clicked; and the composer is present. *)
Definition opens (a : attempt) : Prop :=
  (search_primary a = Returns tt
   \/ (search_primary a = Throws (Exc TimeoutException)
       /\ search_fallback a = Returns tt))
  /\ search_click a = Returns tt
  /\ keys_select_all a = Returns tt
  /\ keys_backspace a = Returns tt
  /\ keys_group_name a = Returns tt
  /\ chat_present a = Returns tt
  /\ chat_clickable a = Returns tt
  /\ chat_click a = Returns tt
  /\ composer_present a = Returns tt.

Definition fails (a : attempt) : Prop := exists e, outcome a = Raise (Exc e).

(** The seed-once start of the specification: one read of the snapshot
    at the state SEEDED, every id added, then the same loop. *)
Definition main_try_seed_once (c : Config) (w : world) : Prog unit :=
  startup c w ;;
  seed (w_seed_second w) ;;
  monitor c (w_cycles w).

Definition main_seed_once (c : Config) (w : world) : Prog unit :=
  build_driver w ;;
  finally (handlers (main_try_seed_once c w)) (release w).

(** The two debug lines of the seeding. *)
Definition diagnostic (ev : event) : bool :=
  match ev with
  | Print DebugStarted | Print (DebugSeeded _) => true
  | _ => false
  end.

Definition undiagnosed (t : list event) : list event :=
  List.filter (fun ev => negb (diagnostic ev)) t.

(** The statement only ever adds to [seen_ids]. *)
Definition grows {A} (m : Prog A) : Prop :=
  forall seen, seen ⊆ (m seen).1.1.

(** A driver that meets a stale handle on attempt 1 and then works. *)
Definition stale_then_smooth (n : nat) : attempt :=
  if Nat.eqb n 1 then stale_attempt else smooth_attempt.

(** A driver that never finds the search field. *)
Definition never_found (n : nat) : attempt := timeout_attempt.

(** The driver of [quiet_world], except that it opens the chat as [tries] says. *)
Definition world_opening (tries : nat -> attempt) : world :=
  {| w_build := Returns tt; w_get := Returns tt; w_ready := Returns tt;
     w_tries := tries; w_probe := Returns tt;
     w_seed_first := Returns []; w_seed_second := Returns [];
     w_cycles := [quiet_cycle [bubble "[09:10, 1/1/2024] Alice: " "urgent"]];
     w_quit := Returns tt |}.

(** Two runs end with the same [seen_ids] and the same result, and put
    out the same events once the two debug lines of the seeding are left
    out. *)
Definition same_behaviour {A}
  (x y : gset string * list event * result A) : Prop :=
  x.1.1 = y.1.1 /\ x.2 = y.2 /\ undiagnosed x.1.2 = undiagnosed y.1.2.

(** A cycle in which the enumeration of the message elements fails. *)
Definition lost_cycle : cycle :=
  {| c_scroll := smooth_scroll;
     c_found := Throws (Exc (WebDriverException "chrome not reachable"));
     c_sound := working_sound; c_sleep := Returns tt |}.

(** A cycle in which the scroll hint fails and one element is stale. *)
Definition bumpy_cycle : cycle :=
  {| c_scroll := broken_scroll;
     c_found := Returns [stale_bubble; bubble "[09:11, 1/1/2024] Bob: " "this is Urgent"];
     c_sound := working_sound; c_sleep := Returns tt |}.

(** Two messages that are on the page before monitoring starts. *)
Definition history : list element :=
  [bubble "[09:10, 1/1/2024] Alice: " "hello";
   bubble "[09:11, 1/1/2024] Bob: " "this is Urgent"].

(** Every character of the text is whitespace. *)
Fixpoint only_space (s : string) : bool :=
  match s with
  | EmptyString => true
  | String c r => Py.is_space c && only_space r
  end.

(** What the matcher looks at: the words of a text, in lower case. *)
Definition folded (s : string) : list string := map Py.lower (Py.words s).

(** Two texts with a line break, and a tab, inside. *)
Definition two_lines : string :=
  String.append "URGENT:  call" (String (ascii_of_nat 10) " me").

Definition broken_lines : string :=
  String.append "Please   CALL"
    (String (ascii_of_nat 10) (String (ascii_of_nat 9) "me now")).

(** The character [c] does not occur in [s]. *)
Fixpoint free_of (c : ascii) (s : string) : bool :=
  match s with
  | EmptyString => true
  | String d r => negb (Ascii.eqb c d) && free_of c r
  end.

(** The separator between metadata and text in a message id. *)
Definition bar : ascii := "|"%char.

(** Reading the block lets a [KeyboardInterrupt] out: at the attribute,
    or at the text once the attribute has been read. *)
Definition interrupted (b : element) : bool :=
  match pre_plain_text b, visible_text b with
  | Throws KeyboardInterrupt, _ => true
  | Returns _, Throws KeyboardInterrupt => true
  | _, _ => false
  end.

(** The text has no whitespace at either end. *)
Definition trimmed (s : string) : Prop := Py.strip s = s.

(** The tones of one alarm: [alarm_beeps] beeps, each with its pause;
    none when [alarm_beeps] is zero or negative. *)
Definition tones (c : Config) : list event :=
  mjoin (replicate (Z.to_nat (alarm_beeps c))
           [Beep (beep_freq_hz c) (beep_ms c); Sleep 50]).

Definition is_beep (ev : event) : bool :=
  match ev with Beep _ _ => true | _ => false end.

(** The sound file the alarm plays: [cfg.wav_path] when it is neither
    [None] nor empty. *)
Definition wav_wanted (c : Config) : option string :=
  match wav_path c with
  | Some path => if Py.truthy path then Some path else None
  | None => None
  end.

(** The attempt [a] with another answer of the primary search. *)
Definition with_primary (o : obs unit) (a : attempt) : attempt :=
  {| search_primary := o; search_fallback := search_fallback a;
     search_click := search_click a; keys_select_all := keys_select_all a;
     keys_backspace := keys_backspace a; keys_group_name := keys_group_name a;
     chat_present := chat_present a; chat_clickable := chat_clickable a;
     chat_click := chat_click a; composer_present := composer_present a |}.

Definition is_quit (ev : event) : bool :=
  match ev with Quit => true | _ => false end.

(** How often the driver is quit. *)
Definition quits (t : list event) : nat := length (List.filter is_quit t).

(** The statement never quits the driver. *)
Definition quitless {A} (m : Prog A) : Prop :=
  forall seen, quits (m seen).1.2 = 0.

(** The ids of all messages shown over a run of cycles. *)
Definition all_shown (os : list cycle) : gset string :=
  ⋃ (map (fun o => ids (shown o)) os).

(** The time the script itself sleeps, in milliseconds, the poll
    interval apart. *)
Fixpoint slept (t : list event) : Z :=
  match t with
  | [] => 0%Z
  | Sleep ms :: rest => (ms + slept rest)%Z
  | _ :: rest => slept rest
  end.

(** ** Strings *)

Section Strings.

Local Notation "a +++ b" := (String.append a b) (at level 60, right associativity).

Lemma append_nil b : "" +++ b = b.
Proof. reflexivity. Qed.

Lemma append_cons c a b : String c a +++ b = String c (a +++ b).
Proof. reflexivity. Qed.

Ltac app_simpl := rewrite ?append_cons, ?append_nil in *.

Lemma is_space_lower c : Py.is_space (Py.lower_char c) = Py.is_space c.
Proof. destruct c as [[] [] [] [] [] [] [] []]; reflexivity. Qed.

Lemma lower_char_idem c : Py.lower_char (Py.lower_char c) = Py.lower_char c.
Proof. destruct c as [[] [] [] [] [] [] [] []]; reflexivity. Qed.

Lemma lower_idem s : Py.lower (Py.lower s) = Py.lower s.
Proof. induction s as [|c r IH]; simpl; [done|]. by rewrite lower_char_idem, IH. Qed.

Lemma lower_app a b : Py.lower (a +++ b) = Py.lower a +++ Py.lower b.
Proof. induction a as [|c r IH]; app_simpl; simpl; [done|]. by rewrite IH. Qed.

Lemma append_empty_r s : s +++ "" = s.
Proof. induction s as [|c r IH]; app_simpl; [done|]. by rewrite IH. Qed.

Lemma append_assoc a b c : (a +++ b) +++ c = a +++ b +++ c.
Proof. induction a as [|x r IH]; app_simpl; [done|]. by rewrite IH. Qed.

(** *** Substring test *)

Lemma startswith_spec p s :
  Py.startswith p s = true <-> exists b, s = p +++ b.
Proof.
  revert s. induction p as [|a p IH]; intros s; simpl.
  - split; [intros _; by exists s | done].
  - destruct s as [|b s].
    + split; [done | intros [x Hx]; discriminate].
    + destruct (Ascii.eqb_spec a b) as [->|Hne].
      * rewrite IH. split; intros [x Hx]; exists x; app_simpl;
          [by rewrite Hx | by injection Hx].
      * split; [done | intros [x Hx]; app_simpl; injection Hx; intros; by subst].
Qed.

Lemma contains_spec needle s :
  Py.contains needle s = true <-> substring needle s.
Proof.
  unfold substring. induction s as [|c r IH].
  - simpl. rewrite orb_false_r, startswith_spec. split.
    + intros [b Hb]. by exists "", b.
    + intros (a & b & Hab). destruct a; [by exists b | discriminate].
  - cbn [Py.contains]. rewrite orb_true_iff, startswith_spec, IH. split.
    + intros [[b Hb] | (a & b & Hab)].
      * by exists "", b.
      * exists (String c a), b. app_simpl. by rewrite Hab.
    + intros (a & b & Hab). destruct a as [|x a]; app_simpl.
      * left. by exists b.
      * right. injection Hab as -> Hr. by exists a, b.
Qed.

Lemma contains_empty s : Py.contains "" s = true.
Proof. destruct s; reflexivity. Qed.

Lemma drop_app a b : Py.drop (String.length a) (a +++ b) = b.
Proof. induction a as [|c r IH]; app_simpl; simpl; [by destruct b | done]. Qed.

(** [partition] cuts at an occurrence, and at the leftmost one. *)
Lemma partition_Some sep s before after :
  Py.partition sep s = Some (before, after) ->
  s = before +++ sep +++ after /\
  forall n, n < String.length before -> Py.startswith sep (Py.drop n s) = false.
Proof.
  revert before after. induction s as [|c r IH]; intros before after.
  - simpl. destruct (Py.startswith sep "") eqn:E; [|done].
    intros [= <- <-]. apply startswith_spec in E as [b Hb].
    split; [|simpl; lia]. app_simpl. rewrite Hb at 1. f_equal.
    rewrite Hb, drop_app. done.
  - cbn [Py.partition]. destruct (Py.startswith sep (String c r)) eqn:E.
    + intros [= <- <-]. apply startswith_spec in E as [b Hb].
      split; [|simpl; lia]. app_simpl. rewrite Hb at 1. f_equal.
      by rewrite Hb, drop_app.
    + destruct (Py.partition sep r) as [[b' a']|] eqn:P; [|done].
      intros [= <- <-]. destruct (IH _ _ eq_refl) as [Hr Hleft].
      split; [app_simpl; by rewrite Hr at 1|].
      intros [|n] Hn; [by simpl|]. simpl in *. apply Hleft. lia.
Qed.

Lemma partition_None sep s :
  Py.partition sep s = None <-> Py.contains sep s = false.
Proof.
  induction s as [|c r IH].
  - simpl. destruct (Py.startswith sep ""); simpl; split; done.
  - cbn [Py.partition Py.contains].
    destruct (Py.startswith sep (String c r)); simpl; [split; done|].
    rewrite <- IH. destruct (Py.partition sep r) as [[? ?]|]; split; done.
Qed.

(** *** Words, and the shape of a normalised text *)

Lemma truthy_false s : Py.truthy s = false <-> s = "".
Proof. destruct s; split; done. Qed.

Lemma words_are_words s : Forall (fun w => is_word w = true) (Py.words s).
Proof.
  induction s as [|c r IH]; simpl; [constructor|].
  destruct (Py.is_space c) eqn:Ec; [done|].
  destruct (Py.starts_ws r) eqn:Er.
  - constructor; [|done]. unfold is_word. simpl. by rewrite Ec.
  - destruct (Py.words r) as [|w ws].
    + constructor; [|done]. unfold is_word. simpl. by rewrite Ec.
    + inversion IH as [|? ? Hw Hws]; subst. constructor; [|done].
      unfold is_word in *. simpl. rewrite Ec. simpl.
      apply andb_true_iff in Hw as [_ Hw]. done.
Qed.

Lemma words_head_nonspace c r :
  Py.is_space c = false -> exists w ws, Py.words (String c r) = String c w :: ws.
Proof.
  intros Ec. simpl. rewrite Ec. destruct (Py.starts_ws r); [by eexists _, _|].
  destruct (Py.words r); by eexists _, _.
Qed.

Lemma join_sp_cons w ws :
  Py.join_sp (w :: ws) =
  match ws with [] => w | _ => w +++ String " " (Py.join_sp ws) end.
Proof. by destruct ws. Qed.

Lemma join_sp_word_nonempty w ws :
  is_word w = true -> exists c r, Py.join_sp (w :: ws) = String c r.
Proof.
  intros Hw. destruct w as [|c w]; [done|]. rewrite join_sp_cons.
  destruct ws; app_simpl; by eexists _, _.
Qed.

Lemma rstrip_cons_nonspace c s :
  Py.is_space c = false -> Py.rstrip (String c s) = String c (Py.rstrip s).
Proof. intros Ec. simpl. rewrite Ec. by destruct (Py.rstrip s). Qed.

Lemma rstrip_cons_space c s :
  Py.is_space c = true ->
  Py.rstrip (String c s) =
  match Py.rstrip s with "" => "" | r => String c r end.
Proof. intros Ec. simpl. rewrite Ec. by destruct (Py.rstrip s). Qed.

(** The text laid out by [re.sub] and cut on the right: the words joined
    by single spaces, after one leading space when the text began with
    whitespace outside a run that was already open. *)
Lemma rstrip_sub_ws_from b s :
  Py.rstrip (Py.sub_ws_from b s) =
  match Py.words s with
  | [] => ""
  | ws => (if negb b && Py.starts_ws s then " " else "") +++ Py.join_sp ws
  end.
Proof.
  revert b. induction s as [|c r IH]; intros b; [done|].
  cbn [Py.sub_ws_from Py.words Py.starts_ws].
  destruct (Py.is_space c) eqn:Ec.
  - pose proof (words_are_words r) as Hw.
    destruct b; simpl negb; cbn [andb].
    + rewrite IH. cbn [negb andb]. by destruct (Py.words r).
    + rewrite rstrip_cons_space by done. rewrite IH. cbn [negb andb].
      destruct (Py.words r) as [|w ws]; [done|].
      inversion Hw as [|? ? Hw1 _]; subst.
      destruct (join_sp_word_nonempty w ws Hw1) as (x & y & ->). by app_simpl.
  - rewrite andb_false_r. app_simpl.
    rewrite rstrip_cons_nonspace by done. rewrite IH. cbn [negb andb].
    destruct r as [|d r'].
    + done.
    + cbn [Py.starts_ws]. destruct (Py.is_space d) eqn:Ed.
      * rewrite join_sp_cons. destruct (Py.words (String d r')); by app_simpl.
      * destruct (words_head_nonspace d r' Ed) as (w & ws & ->).
        app_simpl. rewrite !join_sp_cons. destruct ws; by app_simpl.
Qed.

Lemma lstrip_sub_ws_from b s :
  Py.lstrip (Py.sub_ws_from b s) = Py.sub_ws_from false (Py.lstrip s).
Proof.
  revert b. induction s as [|c r IH]; intros b; [done|].
  cbn [Py.sub_ws_from Py.lstrip]. destruct (Py.is_space c) eqn:Ec.
  - destruct b; [apply IH|]. simpl. apply IH.
  - simpl. by rewrite Ec.
Qed.

Lemma words_lstrip s : Py.words (Py.lstrip s) = Py.words s.
Proof.
  induction s as [|c r IH]; [done|]. cbn [Py.lstrip].
  destruct (Py.is_space c) eqn:Ec; [|done]. simpl. by rewrite Ec.
Qed.

Lemma lstrip_starts_ws s : Py.words s <> [] -> Py.starts_ws (Py.lstrip s) = false.
Proof.
  induction s as [|c r IH]; [done|]. cbn [Py.lstrip Py.words].
  destruct (Py.is_space c) eqn:Ec; [done|]. intros _. by simpl.
Qed.

(** [re.sub(r"\s+", " ", s).strip()] is [" ".join(s.split())]. *)
Lemma strip_sub_ws s : Py.strip (Py.sub_ws s) = Py.join_sp (Py.words s).
Proof.
  unfold Py.strip, Py.sub_ws. rewrite lstrip_sub_ws_from, rstrip_sub_ws_from.
  rewrite words_lstrip. destruct (Py.words s) as [|w ws] eqn:E; [done|].
  rewrite lstrip_starts_ws by (by rewrite E). done.
Qed.

Lemma starts_ws_lower s : Py.starts_ws (Py.lower s) = Py.starts_ws s.
Proof. destruct s; simpl; [done|]. apply is_space_lower. Qed.

Lemma words_lower s : Py.words (Py.lower s) = map Py.lower (Py.words s).
Proof.
  induction s as [|c r IH]; [done|]. cbn [Py.lower Py.words].
  rewrite is_space_lower, starts_ws_lower, IH.
  destruct (Py.is_space c); [done|]. destruct (Py.starts_ws r); [done|].
  by destruct (Py.words r).
Qed.

Lemma lower_join_sp ws : Py.lower (Py.join_sp ws) = Py.join_sp (map Py.lower ws).
Proof.
  induction ws as [|w ws IH]; [done|]. rewrite map_cons, !join_sp_cons.
  destruct ws as [|w' ws]; [done|]. rewrite lower_app. cbn [Py.lower].
  rewrite IH. done.
Qed.

Lemma words_word_then_space w t :
  is_word w = true -> Py.words (w +++ String " " t) = w :: Py.words t.
Proof.
  induction w as [|c w IH]; [done|]. unfold is_word. cbn [Py.truthy no_space andb].
  intros Hw. apply andb_true_iff in Hw as [Ec Hw]. apply negb_true_iff in Ec.
  rewrite append_cons. cbn [Py.words]. rewrite Ec. destruct w as [|d w].
  - rewrite append_nil. done.
  - rewrite append_cons. cbn [Py.starts_ws]. cbn [no_space] in Hw.
    apply andb_true_iff in Hw as [Ed Hw]. apply negb_true_iff in Ed. rewrite Ed.
    rewrite <- append_cons, IH; [done|]. unfold is_word. cbn [Py.truthy no_space andb].
    by rewrite Ed, Hw.
Qed.

Lemma words_word w : is_word w = true -> Py.words w = [w].
Proof.
  induction w as [|c w IH]; [done|]. unfold is_word. cbn [Py.truthy no_space andb].
  intros Hw. apply andb_true_iff in Hw as [Ec Hw]. apply negb_true_iff in Ec.
  cbn [Py.words]. rewrite Ec.
  destruct w as [|d w]; [done|]. cbn [Py.starts_ws]. cbn [no_space] in Hw.
  apply andb_true_iff in Hw as [Ed Hw]. apply negb_true_iff in Ed. rewrite Ed.
  rewrite IH; [done|]. unfold is_word. cbn [Py.truthy no_space andb].
  by rewrite Ed, Hw.
Qed.

Lemma words_join_sp ws :
  Forall (fun w => is_word w = true) ws -> Py.words (Py.join_sp ws) = ws.
Proof.
  induction 1 as [|w ws Hw Hws IH]; [done|]. rewrite join_sp_cons.
  destruct ws as [|w' ws]; [by apply words_word|].
  rewrite words_word_then_space by done. by rewrite IH.
Qed.

Lemma normalize_words s : normalize s = Py.lower (Py.join_sp (Py.words s)).
Proof. unfold normalize. by rewrite strip_sub_ws. Qed.

(** C5. The text normaliser is a total function that lays its input out
    as the lower-cased words of the input (the maximal runs of characters
    that are not whitespace) joined by single spaces, so that every run
    of whitespace is collapsed to one space and leading and trailing
    whitespace is gone; it is idempotent, and it sends
    ["  Alert   NOW "] to ["alert now"]. *)
Theorem normalize_idempotent s :
  normalize (normalize s) = normalize s
  /\ normalize s = Py.join_sp (map Py.lower (Py.words s))
  /\ Py.lower (normalize s) = normalize s
  /\ Py.strip (Py.sub_ws (normalize s)) = normalize s
  /\ normalize "  Alert   NOW " = "alert now".
Proof.
  assert (Hw : Py.words (normalize s) = map Py.lower (Py.words s)).
  { rewrite normalize_words, words_lower, words_join_sp; [done|].
    apply words_are_words. }
  assert (Hn : normalize s = Py.join_sp (map Py.lower (Py.words s))).
  { by rewrite normalize_words, lower_join_sp. }
  assert (Hl : Py.lower (normalize s) = normalize s).
  { unfold normalize. apply lower_idem. }
  assert (Hs : Py.strip (Py.sub_ws (normalize s)) = normalize s).
  { by rewrite strip_sub_ws, Hw, <- Hn. }
  repeat split; try done.
  unfold normalize at 1. by rewrite Hs.
Qed.

Lemma matches_contains text kw :
  matches text kw <-> Py.contains (normalize kw) (normalize text) = true.
Proof. unfold matches. by rewrite contains_spec. Qed.

Lemma keyword_scan_Some t kws kw :
  keyword_scan t kws = Some kw <->
  exists before after,
    kws = before ++ kw :: after
    /\ Py.contains (normalize kw) t = true
    /\ Forall (fun k => Py.contains (normalize k) t = false) before.
Proof.
  induction kws as [|k kws IH]; simpl.
  - split; [done|]. intros (b & a & H & _). by destruct b.
  - destruct (Py.contains (normalize k) t) eqn:E.
    + split.
      * intros [= ->]. exists [], kws. by repeat split.
      * intros (b & a & H & Hk & Hb). destruct b as [|x b].
        -- by injection H as ->.
        -- injection H as -> _. inversion Hb; subst. congruence.
    + rewrite IH. split.
      * intros (b & a & -> & Hk & Hb). exists (k :: b), a.
        repeat split; [done|]. by constructor.
      * intros (b & a & H & Hk & Hb). destruct b as [|x b].
        -- injection H as -> _. congruence.
        -- injection H as -> ->. inversion Hb; subst. by exists b, a.
Qed.

Lemma keyword_scan_None t kws :
  keyword_scan t kws = None <->
  Forall (fun k => Py.contains (normalize k) t = false) kws.
Proof.
  induction kws as [|k kws IH]; simpl; [split; by constructor|].
  destruct (Py.contains (normalize k) t) eqn:E.
  - split; [done|]. inversion 1; congruence.
  - rewrite IH. split; [by constructor | by inversion 1].
Qed.

Lemma Forall_not_matches text kws :
  Forall (fun k => ~ matches text k) kws <->
  Forall (fun k => Py.contains (normalize k) (normalize text) = false) kws.
Proof.
  apply Forall_proper; [|done]. intros k.
  rewrite matches_contains. by destruct (Py.contains _ _).
Qed.

Lemma keyword_hit_Some text kws kw :
  keyword_hit text kws = Some kw <->
  exists before after,
    kws = before ++ kw :: after
    /\ matches text kw
    /\ Forall (fun k => ~ matches text k) before.
Proof.
  unfold keyword_hit. rewrite keyword_scan_Some.
  split; intros (b & a & H1 & H2 & H3); exists b, a.
  - by rewrite matches_contains, Forall_not_matches.
  - by rewrite <- matches_contains, <- Forall_not_matches.
Qed.

Lemma keyword_hit_None text kws :
  keyword_hit text kws = None <-> Forall (fun k => ~ matches text k) kws.
Proof. unfold keyword_hit. by rewrite keyword_scan_None, Forall_not_matches. Qed.

(** C4. For every text and every keyword list, the keyword matcher
    returns a keyword exactly when it is the first of the list, in the
    configured order, whose normalised form occurs in the normalised
    text, and it hands that keyword back as it was configured; it returns
    [None] exactly when no keyword of the list occurs.  With
    [["alert"; "urgent"]], ["this is an ALERT!"] gives ["alert"] and
    ["nothing here"] gives [None]. *)
Theorem keyword_hit_first_match text kws :
  (forall kw,
      keyword_hit text kws = Some kw <->
      exists before after,
        kws = before ++ kw :: after
        /\ matches text kw
        /\ Forall (fun k => ~ matches text k) before)
  /\ (keyword_hit text kws = None <-> Forall (fun k => ~ matches text k) kws)
  /\ keyword_hit "this is an ALERT!" ["alert"; "urgent"] = Some "alert"
  /\ keyword_hit "nothing here" ["alert"; "urgent"] = None
  /\ keyword_hit "URGENT alert" ["alert"; "urgent"] = Some "alert".
Proof.
  split; [intros kw; apply keyword_hit_Some|].
  split; [apply keyword_hit_None|]. by repeat split.
Qed.

(** C10, as stated, fails: with the keywords [["alert"; ""]] the empty
    keyword is the first one that normalises to the empty string, yet
    for the text ["alert"] the matcher returns ["alert"], the earlier
    keyword that occurs in it. *)
Lemma first_blank_not_returned :
  first_blank ["alert"; ""] = Some ""
  /\ keyword_hit "alert" ["alert"; ""] = Some "alert"
  /\ keyword_hit "alert" ["alert"; ""] <> first_blank ["alert"; ""].
Proof. by repeat split. Qed.

Lemma blank_normalize kw : blank kw = true <-> normalize kw = "".
Proof. unfold blank. rewrite negb_true_iff. apply truthy_false. Qed.

Lemma blank_matches text kw : normalize kw = "" -> matches text kw.
Proof. intros H. apply matches_contains. rewrite H. apply contains_empty. Qed.

End Strings.

(** ** The snapshot reader *)

Section Reader.

Lemma extract_run b seen :
  extract b seen =
  (seen, [],
   match pre_plain_text b with
   | Throws e => Raise e
   | Returns raw_meta =>
       match visible_text b with
       | Throws e => Raise e
       | Returns _ => Ok (readable b)
       end
   end).
Proof.
  unfold extract, readable, bind, call, ret, raise.
  destruct (pre_plain_text b) as [rm|e]; [|done].
  destruct (visible_text b) as [rt|e]; [|done].
  by destruct (Py.truthy (Py.strip (or_empty rt))).
Qed.

(** One turn of the [for b in blocks] loop with its [except Exception]. *)
Lemma guarded_extract_run b seen :
  try_except (extract b) (fun _ => ret None) seen =
  (seen, [],
   match pre_plain_text b, visible_text b with
   | Throws KeyboardInterrupt, _ => Raise KeyboardInterrupt
   | Returns _, Throws KeyboardInterrupt => Raise KeyboardInterrupt
   | _, _ => Ok (readable b)
   end).
Proof.
  unfold try_except. rewrite extract_run. unfold readable, ret.
  destruct (pre_plain_text b) as [rm|[e|]]; [|done..].
  by destruct (visible_text b) as [rt|[e|]].
Qed.

Lemma get_messages_loop_frame blocks acc seen :
  get_messages_loop blocks acc seen =
  (seen, [], (get_messages_loop blocks acc ∅).2).
Proof.
  revert acc. induction blocks as [|b rest IH]; intros acc; [done|].
  cbn [get_messages_loop]. unfold bind. rewrite !guarded_extract_run.
  destruct (pre_plain_text b) as [rm|[e|]], (visible_text b) as [rt|[e'|]];
    try done; rewrite (IH _); by destruct (get_messages_loop rest _ ∅) as [[? ?] ?].
Qed.

(** [get_messages] neither reads nor changes [seen_ids], and prints nothing. *)
Lemma get_messages_frame found seen :
  get_messages found seen = (seen, [], (get_messages found ∅).2).
Proof.
  unfold get_messages, bind, call. destruct found as [blocks|e]; [|done].
  unfold ret. rewrite (get_messages_loop_frame blocks [] seen).
  by destruct (get_messages_loop blocks [] ∅) as [[? ?] ?].
Qed.

Lemma calm_readable b :
  calm b = true ->
  forall seen,
    try_except (extract b) (fun _ => ret None) seen = (seen, [], Ok (readable b)).
Proof.
  unfold calm. intros H seen. rewrite guarded_extract_run.
  destruct (pre_plain_text b) as [rm|[e|]], (visible_text b) as [rt|[e'|]]; done.
Qed.

Lemma get_messages_loop_calm blocks acc seen :
  forallb calm blocks = true ->
  get_messages_loop blocks acc seen = (seen, [], Ok (acc ++ omap readable blocks)).
Proof.
  revert acc. induction blocks as [|b rest IH]; intros acc H.
  - simpl. unfold ret. by rewrite app_nil_r.
  - cbn [forallb] in H. apply andb_true_iff in H as [Hb Hrest].
    cbn [get_messages_loop]. unfold bind. rewrite (calm_readable b Hb).
    rewrite IH by done. cbn [omap list_omap]. f_equal. f_equal.
    destruct (readable b); [by rewrite <- app_assoc | done].
Qed.

Lemma get_messages_calm blocks seen :
  forallb calm blocks = true ->
  get_messages (Returns blocks) seen = (seen, [], Ok (omap readable blocks)).
Proof.
  intros H. unfold get_messages, bind, call, ret.
  by rewrite (get_messages_loop_calm blocks [] seen H).
Qed.

(** C7. The snapshot reader returns the empty list, and does not fail,
    when no message element is present.  Whenever reading the single
    elements fails only with exceptions of class [Exception], it returns
    normally, without touching [seen_ids] or printing, the messages of
    exactly the elements whose two reads return and whose trimmed text
    is not empty, in document order: an element with an empty trimmed
    text is left out, and so is an element one of whose reads fails,
    without effect on the elements around it. *)
Theorem get_messages_total blocks seen :
  get_messages (Returns []) seen = (seen, [], Ok [])
  /\ (forallb calm blocks = true ->
      get_messages (Returns blocks) seen = (seen, [], Ok (omap readable blocks))
      /\ (forall before b after,
             blocks = before ++ b :: after ->
             omap readable blocks =
             omap readable before ++ option_list (readable b) ++ omap readable after)
      /\ (forall b raw_meta raw_text,
             pre_plain_text b = Returns raw_meta ->
             visible_text b = Returns raw_text ->
             Py.strip (or_empty raw_text) = "" -> readable b = None)
      /\ (forall b e,
             pre_plain_text b = Throws e \/ visible_text b = Throws e ->
             readable b = None)
      /\ (forall b raw_meta raw_text,
             pre_plain_text b = Returns raw_meta ->
             visible_text b = Returns raw_text ->
             Py.strip (or_empty raw_text) <> "" ->
             exists m, readable b = Some m
                       /\ msg_text m = Py.strip (or_empty raw_text)
                       /\ msg_sender m = parse_sender (Py.strip (or_empty raw_meta))
                       /\ msg_id m =
                          String.append (Py.strip (or_empty raw_meta))
                            (String.append "|" (Py.strip (or_empty raw_text))))).
Proof.
  split; [done|]. intros H. split; [by apply get_messages_calm|].
  split; [|split; [|split]].
  - intros before b after ->. rewrite omap_app. cbn [omap list_omap].
    by destruct (readable b).
  - intros b rm rt Hm Ht E. unfold readable. by rewrite Hm, Ht, E.
  - intros b e [E|E]; unfold readable; rewrite E; [done|].
    by destruct (pre_plain_text b).
  - intros b rm rt Hm Ht E. unfold readable. rewrite Hm, Ht.
    destruct (Py.strip (or_empty rt)) eqn:Et; [done|]. by eexists.
Qed.

Lemma get_messages_total_witness :
  get_messages
    (Returns [bubble "[09:10, 1/1/2024] Alice: " "hello"; stale_bubble;
              bubble "[09:11, 1/1/2024] Bob: " "   ";
              bubble "[09:12, 1/1/2024] Bob: " "bye"]) ∅
  = (∅, [], Ok [("[09:10, 1/1/2024] Alice:|hello", "Unknown", "hello");
                ("[09:12, 1/1/2024] Bob:|bye", "Unknown", "bye")]).
Proof.
  pose proof (get_messages_total
    [bubble "[09:10, 1/1/2024] Alice: " "hello"; stale_bubble;
     bubble "[09:11, 1/1/2024] Bob: " "   ";
     bubble "[09:12, 1/1/2024] Bob: " "bye"] ∅) as [_ H].
  destruct (H eq_refl) as [-> _]. reflexivity.
Defined.

End Reader.

(** ** The conversation locator *)

Section Locator.

Ltac next_call :=
  match goal with
  | |- context [match ?f ?a with Returns _ => _ | Throws _ => _ end] =>
      destruct (f a) as [[]|[[]|]]
  end; cbn.

(** An attempt leaves [seen_ids] alone, ends as [outcome] says, takes
    none of the pauses between attempts, and comes to an end. *)
Lemma run_attempt_run a seen :
  exists t,
    run_attempt a seen = (seen, t, outcome a)
    /\ pauses t = 0
    /\ outcome a <> Pending.
Proof.
  unfold outcome, run_attempt, bind, call, emit, ret, raise.
  destruct (search_primary a) as [[]|[[]|]]; cbn;
    try (eexists; repeat split; done);
    repeat (next_call; try (eexists; repeat split; done)).
Qed.

Lemma attempt_loop_spec tries budget :
  forall n seen,
  exists t r,
    attempt_loop tries n budget seen = (seen, t, r)
    /\ match r with
       | Ok _ =>
           exists k, n <= k < n + budget
                     /\ (forall i, n <= i < k -> fails (tries i))
                     /\ outcome (tries k) = Ok tt
                     /\ pauses t = k - n
                     /\ last t = Some (Print (InfoOpened k))
       | Raise (Exc e) =>
           e = giving_up
           /\ (forall i, n <= i < n + budget -> fails (tries i))
           /\ pauses t = budget
       | Raise KeyboardInterrupt =>
           exists k, n <= k < n + budget
                     /\ (forall i, n <= i < k -> fails (tries i))
                     /\ outcome (tries k) = Raise KeyboardInterrupt
       | Pending => False
       end.
Proof.
  induction budget as [|rest IH]; intros n seen.
  - exists [], (Raise (Exc giving_up)). split; [done|]. split; [done|].
    split; [|done]. intros i Hi. lia.
  - cbn [attempt_loop].
    destruct (run_attempt_run (tries n) seen) as (t & -> & Hp & Hnp).
    destruct (outcome (tries n)) as [[]|[e|]|] eqn:Eo; [| | |done].
    + exists (t ++ [Print (InfoOpened n)]), (Ok tt). split; [done|].
      exists n. split; [lia|]. split; [intros i Hi; lia|]. split; [done|].
      split; [|by rewrite last_snoc].
      unfold pauses in *. rewrite List.filter_app, length_app, Hp. simpl. lia.
    + assert (Hfail : fails (tries n)) by (by exists e).
      destruct (IH (S n) seen) as (t2 & r & E2 & Hr).
      assert (Hstep : exists w ms,
        (let '(seen2, t3, r3) := attempt_loop tries (S n) rest seen in
         match e with
         | StaleElementReferenceException =>
             (seen2, t ++ [Print (WarnStale n); Sleep 600] ++ t3, r3)
         | _ => (seen2, t ++ [Print (WarnOpenFailed n e); Sleep 800] ++ t3, r3)
         end) = (seen, t ++ [Print w; Sleep ms] ++ t2, r)
        /\ is_pause (Sleep ms) = true).
      { rewrite E2. destruct e; eexists _, _; split; reflexivity. }
      destruct Hstep as (w & ms & Erun & Hms).
      exists (t ++ [Print w; Sleep ms] ++ t2), r. split.
      { rewrite <- Erun. by destruct e. }
      assert (Hpt : pauses (t ++ [Print w; Sleep ms] ++ t2) = S (pauses t2)).
      { unfold pauses in *. rewrite !List.filter_app, !length_app, Hp.
        cbn [List.filter]. rewrite Hms. done. }
      assert (Hlast : forall x, last t2 = Some x ->
                last (t ++ [Print w; Sleep ms] ++ t2) = Some x).
      { intros x Hx. rewrite !app_assoc. destruct t2 as [|y t2]; [done|].
        by rewrite last_app, Hx. }
      assert (Hall : forall k, (forall i, S n <= i < k -> fails (tries i)) ->
                forall i, n <= i < k -> fails (tries i)).
      { intros k Hf i Hi. destruct (decide (i = n)) as [->|]; [done|].
        apply Hf. lia. }
      destruct r as [[]|[e'|]|]; [| | |done].
      * destruct Hr as (k & Hk & Hf & Ho & Hpk & Hl). exists k.
        split; [lia|]. split; [by apply Hall|]. split; [done|].
        split; [lia | by apply Hlast].
      * destruct Hr as (-> & Hf & Hpk). split; [done|].
        split; [|lia]. apply Hall. intros i Hi. apply Hf. lia.
      * destruct Hr as (k & Hk & Hf & Ho). exists k.
        split; [lia|]. split; [by apply Hall | done].
    + exists t, (Raise KeyboardInterrupt). split; [done|]. exists n.
      split; [lia|]. split; [intros i Hi; lia | done].
Qed.

Lemma open_group_chat_run tries group seen :
  exists t r,
    attempt_loop tries 1 5 seen = (seen, t, r)
    /\ open_group_chat tries group seen = (seen, Print (InfoOpening group) :: t, r).
Proof.
  destruct (attempt_loop_spec tries 5 1 seen) as (t & r & E & _).
  exists t, r. split; [done|]. unfold open_group_chat, bind, print, emit.
  by rewrite E.
Qed.

Lemma pauses_cons_print l t : pauses (Print l :: t) = pauses t.
Proof. reflexivity. Qed.

Lemma fails_not_returns a : fails a -> outcome a <> Ok tt.
Proof. intros [e He]. by rewrite He. Qed.

Lemma fails_not_interrupted a : fails a -> outcome a <> Raise KeyboardInterrupt.
Proof. intros [e He]. by rewrite He. Qed.

(** The [finally] block always comes to an end, after one [driver.quit()]. *)
Lemma release_run w seen :
  release w seen =
  (seen, [Quit],
   match w_quit w with
   | Throws KeyboardInterrupt => Raise KeyboardInterrupt
   | _ => Ok tt
   end).
Proof.
  unfold release, try_except, bind, emit, call, ret, raise.
  by destruct (w_quit w) as [[]|[e|]].
Qed.

Ltac step_returns :=
  match goal with
  | |- context [match ?f ?a with Returns _ => _ | Throws _ => _ end] =>
      destruct (f a) as [[]|?]
  end; cbn; try (intros; discriminate).

(** An attempt returns exactly when every one of its steps goes
    through, the wait for the composer being the last of them. *)
Lemma outcome_Ok_opens a : outcome a = Ok tt <-> opens a.
Proof.
  unfold opens. split.
  - unfold outcome, run_attempt, bind, call, emit, ret, raise.
    destruct (search_primary a) as [[]|[[]|]]; cbn; try (intros; discriminate);
      repeat step_returns; intros _; repeat split; auto.
  - intros (Hsearch & H1 & H2 & H3 & H4 & H5 & H6 & H7 & H8).
    unfold outcome, run_attempt, bind, call, emit, ret, raise.
    rewrite H1, H2, H3, H4, H5, H6, H7, H8.
    by destruct Hsearch as [-> | [-> ->]].
Qed.

(** C8. The conversation locator makes at most five attempts.  It
    returns as soon as one attempt ends with the composer present: when
    attempt [k] of the five is the first that does not fail, it returns
    after exactly [k - 1] pauses and reports attempt [k].  It raises its
    fatal error exactly when all five attempts fail, then after five
    pauses; and in [main], once the driver is built, that error ends the
    session before any seeding or polling: the run prints the error,
    quits the driver and is over, with [seen_ids] untouched, whatever
    the later observations are.  An attempt is one that does not fail
    and returns exactly when every step of it goes through, up to the
    wait that finds the composer present: no attempt returns without the
    composer. *)
Theorem open_group_chat_retries tries group seen :
  (forall k,
      1 <= k <= 5 ->
      (forall i, 1 <= i < k -> fails (tries i)) ->
      outcome (tries k) = Ok tt ->
      exists t,
        open_group_chat tries group seen = (seen, t, Ok tt)
        /\ pauses t = k - 1
        /\ last t = Some (Print (InfoOpened k)))
  /\ ((open_group_chat tries group seen).2 = Raise (Exc giving_up) <->
      forall i, 1 <= i <= 5 -> fails (tries i))
  /\ ((forall i, 1 <= i <= 5 -> fails (tries i)) ->
      pauses (open_group_chat tries group seen).1.2 = 5
      /\ forall c w,
          w_tries w = tries -> group_name c = group ->
          w_build w = Returns tt ->
          w_get w = Returns tt -> w_ready w = Returns tt ->
          main c w seen =
          (seen,
           [Print InfoWaiting; Print InfoReady; Sleep 1500]
             ++ (open_group_chat tries group seen).1.2
             ++ [Print (ErrorLine giving_up); Quit],
           (release w seen).2))
  /\ (forall a,
         (outcome a = Ok tt <-> opens a)
         /\ (outcome a = Ok tt -> composer_present a = Returns tt)
         /\ (composer_present a <> Returns tt -> outcome a <> Ok tt)).
Proof.
  destruct (open_group_chat_run tries group seen) as (t & r & Eloop & Eopen).
  destruct (attempt_loop_spec tries 5 1 seen) as (t' & r' & E' & Hspec).
  rewrite Eloop in E'. injection E' as <- <-.
  assert (Hiff : r = Raise (Exc giving_up) <-> forall i, 1 <= i <= 5 -> fails (tries i)).
  { split.
    - intros ->. destruct Hspec as (_ & Hf & _). intros i Hi. apply Hf. lia.
    - intros Hall. destruct r as [[]|[e|]|]; [| |exfalso|done].
      + destruct Hspec as (k & Hk & _ & Ho & _).
        destruct (fails_not_returns (tries k)); [apply Hall; lia | done].
      + by destruct Hspec as (-> & _).
      + destruct Hspec as (k & Hk & _ & Ho).
        destruct (fails_not_interrupted (tries k)); [apply Hall; lia | done]. }
  split; [|split; [|split]].
  - intros k Hk Hearlier Hok. rewrite Eopen.
    destruct r as [[]|[e|]|]; [| |exfalso|done].
    + destruct Hspec as (k' & Hk' & Hf & Ho & Hp & Hl).
      assert (k' = k) as ->.
      { destruct (Nat.lt_trichotomy k' k) as [Hlt|[->|Hgt]]; [|done|].
        - destruct (fails_not_returns (tries k')); [apply Hearlier; lia | done].
        - destruct (fails_not_returns (tries k)); [apply Hf; lia | done]. }
      exists (Print (InfoOpening group) :: t). split; [done|].
      split; [by rewrite pauses_cons_print|].
      destruct t; [done|]. done.
    + exfalso. destruct Hspec as (_ & Hf & _).
      destruct (fails_not_returns (tries k)); [apply Hf; lia | done].
    + destruct Hspec as (k' & Hk' & Hf & Ho).
      destruct (Nat.lt_trichotomy k' k) as [Hlt|[->|Hgt]].
      * destruct (fails_not_interrupted (tries k')); [apply Hearlier; lia | done].
      * congruence.
      * destruct (fails_not_returns (tries k)); [apply Hf; lia | done].
  - rewrite Eopen. cbn [snd]. exact Hiff.
  - intros Hall. apply Hiff in Hall as ->. destruct Hspec as (_ & _ & Hp).
    rewrite Eopen. cbn [fst snd]. split; [by rewrite pauses_cons_print|].
    intros c w Htries Hgroup Hbuild Hget Hready.
    unfold main, build_driver. unfold bind at 1. rewrite Hbuild.
    unfold finally, handlers, main_try, startup, wait_for_whatsapp_ready.
    unfold bind at 1 2 3 4 5 6 7 8. rewrite Hget, Hready.
    unfold call, print, emit, ret. cbn [fst snd app].
    rewrite Htries, Hgroup, Eopen. rewrite release_run. cbn [fst snd].
    by rewrite <- !app_assoc.
  - intros a. split; [apply outcome_Ok_opens|].
    assert (H : outcome a = Ok tt -> composer_present a = Returns tt).
    { intros Ha. apply outcome_Ok_opens in Ha. unfold opens in Ha. tauto. }
    split; [done|]. intros Hc Ha. by apply Hc, H.
Qed.

Lemma open_group_chat_retries_witness :
  (exists t,
      open_group_chat stale_then_smooth "g" ∅ = (∅, t, Ok tt)
      /\ pauses t = 1
      /\ last t = Some (Print (InfoOpened 2)))
  /\ (open_group_chat never_found "g" ∅).2 = Raise (Exc giving_up)
  /\ main short_cfg (world_opening never_found) ∅ =
     (∅,
      [Print InfoWaiting; Print InfoReady; Sleep 1500]
        ++ (open_group_chat never_found "g" ∅).1.2
        ++ [Print (ErrorLine giving_up); Quit],
      Ok tt)
  /\ composer_present (stale_then_smooth 2) = Returns tt.
Proof.
  assert (Hnever : forall i, 1 <= i <= 5 -> fails (never_found i)).
  { intros i _. exists TimeoutException. reflexivity. }
  split; [|split; [|split]].
  - destruct (open_group_chat_retries stale_then_smooth "g" ∅) as (H1 & _ & _).
    apply (H1 2); [lia| |reflexivity].
    intros i Hi. assert (i = 1) as -> by lia.
    exists StaleElementReferenceException. reflexivity.
  - destruct (open_group_chat_retries never_found "g" ∅) as (_ & H2 & _).
    apply H2. exact Hnever.
  - destruct (open_group_chat_retries never_found "g" ∅) as (_ & _ & H3 & _).
    destruct (H3 Hnever) as (_ & Hmain).
    exact (Hmain short_cfg (world_opening never_found)
             eq_refl eq_refl eq_refl eq_refl eq_refl).
  - destruct (open_group_chat_retries stale_then_smooth "g" ∅) as (_ & _ & _ & H4).
    destruct (H4 (stale_then_smooth 2)) as (_ & Hc & _).
    exact (Hc eq_refl).
Defined.

End Locator.

(** ** The monitoring loop *)

Section Loop.

(** *** [seen_ids] only grows *)

Lemma grows_ret {A} (a : A) : grows (ret a).
Proof. intros seen. done. Qed.

Lemma grows_emit ev : grows (emit ev).
Proof. intros seen. done. Qed.

Lemma grows_print l : grows (print l).
Proof. intros seen. done. Qed.

Lemma grows_raise {A} e : grows (@raise A e).
Proof. intros seen. done. Qed.

Lemma grows_pending {A} : grows (@pending A).
Proof. intros seen. done. Qed.

Lemma grows_call {A} (o : obs A) : grows (call o).
Proof. intros seen. by destruct o. Qed.

Lemma grows_get_seen : grows get_seen.
Proof. intros seen. done. Qed.

Lemma grows_add_seen i : grows (add_seen i).
Proof. intros seen. simpl. set_solver. Qed.

Lemma grows_bind {A B} (m : Prog A) (k : A -> Prog B) :
  grows m -> (forall a, grows (k a)) -> grows (bind m k).
Proof.
  intros Hm Hk seen. unfold bind. specialize (Hm seen).
  destruct (m seen) as [[s1 t1] [a|e|]]; simpl in *; [|done..].
  specialize (Hk a s1). destruct (k a s1) as [[s2 t2] r]. simpl in *.
  set_solver.
Qed.

Lemma grows_try_except {A} (m : Prog A) (h : exception -> Prog A) :
  grows m -> (forall e, grows (h e)) -> grows (try_except m h).
Proof.
  intros Hm Hh seen. unfold try_except. specialize (Hm seen).
  destruct (m seen) as [[s1 t1] [a|[e|]|]]; simpl in *; [done| |done..].
  specialize (Hh e s1). destruct (h e s1) as [[s2 t2] r]. simpl in *.
  set_solver.
Qed.

Lemma grows_for_each {X} (l : list X) (body : X -> Prog unit) :
  (forall x, grows (body x)) -> grows (for_each l body).
Proof.
  intros Hb. induction l as [|x l IH]; simpl; [apply grows_ret|].
  apply grows_bind; [apply Hb | by intros _].
Qed.

Lemma grows_while_true {O} (os : list O) (body : O -> Prog unit) :
  (forall o, grows (body o)) -> grows (while_true os body).
Proof.
  intros Hb. induction os as [|o os IH]; simpl; [apply grows_pending|].
  apply grows_bind; [apply Hb | by intros _].
Qed.

Lemma grows_get_messages found : grows (get_messages found).
Proof. intros seen. by rewrite get_messages_frame. Qed.

Lemma grows_beeps n c : grows (beeps n c).
Proof.
  induction n as [|n IH]; simpl; [apply grows_ret|].
  apply grows_bind; [apply grows_emit|intros _].
  apply grows_bind; [apply grows_emit|by intros _].
Qed.

Lemma grows_play_alarm c dev : grows (play_alarm c dev).
Proof.
  unfold play_alarm.
  apply grows_bind; [apply grows_print|intros _].
  apply grows_bind.
  - destruct (Z.to_nat (alarm_beeps c)); [apply grows_ret|].
    apply grows_bind; [apply grows_call | intros _; apply grows_beeps].
  - intros _. destruct (wav_path c) as [path|]; [|apply grows_ret].
    destruct (Py.truthy path); [|apply grows_ret].
    apply grows_try_except; [|intros e; apply grows_print].
    apply grows_bind; [apply grows_call | intros _; apply grows_emit].
Qed.

Lemma grows_alert c dev m : grows (alert c dev m).
Proof.
  unfold alert.
  apply grows_bind; [apply grows_add_seen|intros _].
  apply grows_bind; [apply grows_print|intros _].
  destruct (keyword_hit _ _) as [hit|]; [|apply grows_ret].
  destruct (Py.truthy hit); [|apply grows_ret].
  apply grows_bind; [apply grows_print | intros _; apply grows_play_alarm].
Qed.

Lemma grows_scroll s : grows (scroll_chat_to_bottom s).
Proof.
  unfold scroll_chat_to_bottom.
  apply grows_try_except; [|intros _; apply grows_ret].
  repeat (apply grows_bind; [first [apply grows_call | apply grows_emit]|intros _]).
  apply grows_call.
Qed.

Lemma grows_poll_cycle c o : grows (poll_cycle c o).
Proof.
  unfold poll_cycle.
  apply grows_bind; [apply grows_scroll|intros _].
  apply grows_bind; [apply grows_get_messages|intros msgs].
  apply grows_bind; [apply grows_get_seen|intros seen].
  apply grows_bind; [apply grows_for_each; intros m; apply grows_alert|intros _].
  apply grows_bind; [apply grows_call | intros _; apply grows_emit].
Qed.

(** During polling no id ever leaves [seen_ids], however the run goes. *)
Lemma grows_monitor c os : grows (monitor c os).
Proof. apply grows_while_true. intros o. apply grows_poll_cycle. Qed.

(** *** Cycles in which nothing escapes *)

Lemma scroll_run s seen :
  calm_scroll s = true ->
  exists t,
    scroll_chat_to_bottom s seen = (seen, t, Ok tt)
    /\ (t = [] \/ t = [Sleep 50]).
Proof.
  unfold calm_scroll, scroll_chat_to_bottom, try_except, bind, call, emit, ret, raise.
  destruct (find_composer s) as [[]|[e1|]], (composer_click s) as [[]|[e2|]],
    (key_end s) as [[]|[e3|]], (key_ctrl_end s) as [[]|[e4|]];
    try done; intros _; cbn; eauto.
Qed.

Lemma outputs_app t1 t2 : outputs (t1 ++ t2) = outputs t1 ++ outputs t2.
Proof. apply List.filter_app. Qed.

Lemma beeps_run n c seen :
  exists t, beeps n c seen = (seen, t, Ok tt) /\ outputs t = [].
Proof.
  induction n as [|n (t & E & Ho)]; [by exists []|].
  exists (Beep (beep_freq_hz c) (beep_ms c) :: Sleep 50 :: t).
  simpl. unfold bind, emit. by rewrite E.
Qed.

Lemma play_alarm_run c dev seen :
  returns (beep_call dev) = true ->
  calm_obs (play_sound_call dev) = true ->
  exists t,
    play_alarm c dev seen = (seen, t, Ok tt)
    /\ outputs t = [Print PlayingAlarm].
Proof.
  intros Hb Hp. unfold play_alarm, bind, print, emit, try_except, call, ret, raise.
  destruct (beep_call dev) as [[]|]; [|done].
  assert (Hbeeps : exists t1,
    (match Z.to_nat (alarm_beeps c) with
     | 0 => fun seen : gset string => (seen, [], Ok tt)
     | S k => fun seen : gset string =>
         let '(seen2, t2, r) := beeps (S k) c seen in (seen2, [] ++ t2, r)
     end) seen = (seen, t1, Ok tt) /\ outputs t1 = []).
  { destruct (Z.to_nat (alarm_beeps c)) as [|k]; [by exists []|].
    destruct (beeps_run (S k) c seen) as (t & -> & Ho). by exists t. }
  destruct Hbeeps as (t1 & E1 & Ho1). revert E1.
  destruct (Z.to_nat (alarm_beeps c)) as [|k]; intros E1.
  - injection E1 as <-.
    destruct (wav_path c) as [path|]; [|by eexists].
    destruct (Py.truthy path); [|by eexists].
    destruct (play_sound_call dev) as [[]|[e|]]; [by eexists..|done].
  - rewrite E1.
    destruct (wav_path c) as [path|];
      [|eexists; split; [done|]; cbn; by rewrite outputs_app, Ho1].
    destruct (Py.truthy path);
      [|eexists; split; [done|]; cbn; by rewrite outputs_app, Ho1].
    destruct (play_sound_call dev) as [[]|[e|]]; [| |done];
      (eexists; split; [done|]; cbn; by rewrite !outputs_app, Ho1).
Qed.

Lemma alert_run c dev m seen :
  returns (beep_call dev) = true ->
  calm_obs (play_sound_call dev) = true ->
  exists t,
    alert c dev m seen = ({[ msg_id m ]} ∪ seen, t, Ok tt)
    /\ outputs t = expected c m.
Proof.
  intros Hb Hp. unfold alert, expected, bind, add_seen, print, emit, ret.
  destruct (keyword_hit (msg_text m) (keywords c)) as [hit|]; [|by eexists].
  destruct (Py.truthy hit); [|by eexists].
  destruct (play_alarm_run c dev ({[ msg_id m ]} ∪ seen) Hb Hp) as (t & -> & Ho).
  eexists. split; [done|]. unfold outputs in *. cbn. by rewrite Ho.
Qed.

Lemma ids_cons m ms : ids (m :: ms) = {[ msg_id m ]} ∪ ids ms.
Proof. reflexivity. Qed.

Lemma for_each_alert_run c dev ms seen :
  returns (beep_call dev) = true ->
  calm_obs (play_sound_call dev) = true ->
  exists t,
    for_each ms (alert c dev) seen = (ids ms ∪ seen, t, Ok tt)
    /\ outputs t = flat_map (expected c) ms.
Proof.
  intros Hb Hp. revert seen. induction ms as [|m ms IH]; intros seen.
  - exists []. split; [|done]. unfold ids. simpl. unfold ret. f_equal. f_equal.
    set_solver.
  - destruct (alert_run c dev m seen Hb Hp) as (t1 & E1 & Ho1).
    destruct (IH ({[ msg_id m ]} ∪ seen)) as (t2 & E2 & Ho2).
    exists (t1 ++ t2). split.
    + cbn [for_each]. unfold bind. rewrite E1, E2, ids_cons. f_equal. f_equal.
      set_solver.
    + by rewrite outputs_app, Ho1, Ho2.
Qed.

Lemma ids_filter_unseen seen ms :
  ids (List.filter (unseen seen) ms) ∪ seen = ids ms ∪ seen.
Proof.
  induction ms as [|m ms IH]; [done|]. cbn [List.filter]. unfold unseen at 1.
  case_bool_decide as Hm.
  - rewrite !ids_cons, <- !(assoc_L (∪)), IH. done.
  - rewrite ids_cons, IH. clear IH. set_solver.
Qed.

Lemma steady_shown o :
  steady o = true ->
  exists blocks,
    c_found o = Returns blocks /\ forallb calm blocks = true
    /\ shown o = omap readable blocks
    /\ returns (beep_call (c_sound o)) = true
    /\ calm_obs (play_sound_call (c_sound o)) = true
    /\ c_sleep o = Returns tt.
Proof.
  unfold steady, shown. destruct (c_found o) as [blocks|]; [|done].
  intros H. repeat (apply andb_true_iff in H as [H ?]).
  exists blocks. repeat split; try done. by destruct (c_sleep o) as [[]|].
Qed.

(** A cycle whose scroll hint and element reads fail at most with
    exceptions, and whose other calls work, runs to its end. *)
Lemma poll_cycle_run c o seen :
  calm_scroll (c_scroll o) = true ->
  steady o = true ->
  exists ts ta,
    poll_cycle c o seen = (ids (shown o) ∪ seen, ts ++ ta ++ [PollSleep], Ok tt)
    /\ (ts = [] \/ ts = [Sleep 50])
    /\ for_each (List.filter (unseen seen) (shown o)) (alert c (c_sound o)) seen
       = (ids (shown o) ∪ seen, ta, Ok tt)
    /\ outputs ta = flat_map (expected c) (List.filter (unseen seen) (shown o)).
Proof.
  intros Hs Ho.
  destruct (scroll_run _ seen Hs) as (ts & Es & Hts).
  destruct (steady_shown o Ho) as (blocks & Ef & Hcalm & Eshown & Hb & Hp & Hsl).
  destruct (for_each_alert_run c (c_sound o)
              (List.filter (unseen seen) (shown o)) seen Hb Hp) as (ta & Ea & Hoa).
  rewrite ids_filter_unseen in Ea.
  exists ts, ta. repeat split; try done.
  unfold poll_cycle, bind. rewrite Es, Ef, get_messages_calm by done.
  unfold get_seen. rewrite <- Eshown, Ea, Hsl. done.
Qed.

Lemma monitor_cons c o rest seen :
  monitor c (o :: rest) seen =
  match poll_cycle c o seen with
  | (seen1, t1, Ok _) =>
      let '(seen2, t2, r) := monitor c rest seen1 in (seen2, t1 ++ t2, r)
  | (seen1, t1, Raise e) => (seen1, t1, Raise e)
  | (seen1, t1, Pending) => (seen1, t1, Pending)
  end.
Proof. reflexivity. Qed.

Lemma monitor_run c os :
  forallb calm_cycle os = true ->
  forall seen,
  exists seen' t,
    monitor c os seen = (seen', t, Pending)
    /\ outputs t = flat_map (expected c) (news os seen).
Proof.
  induction os as [|o rest IH]; intros H seen; [by exists seen, []|].
  cbn [forallb] in H. apply andb_true_iff in H as [Ho Hrest].
  unfold calm_cycle in Ho. apply andb_true_iff in Ho as [Hs Hst].
  destruct (poll_cycle_run c o seen Hs Hst) as (ts & ta & E & Hts & _ & Hout).
  destruct (IH Hrest (ids (shown o) ∪ seen)) as (seen' & t & E' & Hout').
  exists seen', ((ts ++ ta ++ [PollSleep]) ++ t). split.
  - by rewrite monitor_cons, E, E'.
  - cbn [news]. rewrite flat_map_app, <- Hout, <- Hout', !outputs_app.
    destruct Hts as [-> | ->]; cbn; by rewrite app_nil_r.
Qed.

(** *** The messages handled as new *)

Lemma news_unseen os seen m : m ∈ news os seen -> msg_id m ∉ seen.
Proof.
  revert seen. induction os as [|o rest IH]; intros seen; cbn [news].
  - by intros ?%elem_of_nil.
  - rewrite elem_of_app. intros [Hm | Hm].
    + apply list_elem_of_In, List.filter_In in Hm as [_ Hm].
      unfold unseen in Hm. by apply bool_decide_eq_true in Hm.
    + apply IH in Hm. set_solver.
Qed.

Lemma elem_of_ids m ms : m ∈ ms -> msg_id m ∈ ids ms.
Proof.
  intros Hm. unfold ids. apply elem_of_list_to_set, list_elem_of_fmap.
  by exists m.
Qed.

Lemma NoDup_ids_filter (f : message -> bool) ms :
  NoDup (map msg_id ms) -> NoDup (map msg_id (List.filter f ms)).
Proof.
  induction ms as [|m ms IH]; [done|]. cbn [map List.filter].
  intros [Hm Hms]%NoDup_cons. specialize (IH Hms).
  destruct (f m); [|done]. cbn [map]. apply NoDup_cons. split; [|done].
  intros Hin. apply Hm. apply list_elem_of_fmap in Hin as (m' & E & Hin).
  apply list_elem_of_fmap. exists m'. split; [done|].
  apply list_elem_of_In. apply list_elem_of_In, List.filter_In in Hin. tauto.
Qed.

Lemma news_NoDup os seen :
  Forall (fun o => NoDup (map msg_id (shown o))) os ->
  NoDup (map msg_id (news os seen)).
Proof.
  intros H. revert seen. induction H as [|o rest Ho Hrest IH]; intros seen.
  - constructor.
  - cbn [news]. rewrite map_app. apply NoDup_app. split; [|split].
    + by apply NoDup_ids_filter.
    + intros i Hi Hi'.
      apply list_elem_of_fmap in Hi as (m & -> & Hm).
      apply list_elem_of_fmap in Hi' as (m' & E & Hm').
      apply news_unseen in Hm'. apply Hm'. rewrite <- E.
      apply elem_of_union_l, elem_of_ids.
      apply list_elem_of_In. apply list_elem_of_In, List.filter_In in Hm. tauto.
    + apply IH.
Qed.

(** Cutting a run of cycles in two: the later part is judged against a
    [seen_ids] that holds the earlier one and every id shown before. *)
Lemma news_app before after seen :
  exists seen',
    news (before ++ after) seen = news before seen ++ news after seen'
    /\ seen ⊆ seen'
    /\ Forall (fun o => ids (shown o) ⊆ seen') before.
Proof.
  revert seen. induction before as [|o rest IH]; intros seen.
  - exists seen. by repeat split.
  - destruct (IH (ids (shown o) ∪ seen)) as (seen' & E & Hsub & Hall).
    exists seen'. cbn [app news]. rewrite E, app_assoc.
    split; [done|]. split; [set_solver|]. constructor; [set_solver|done].
Qed.

(** C2, as stated, fails: the new messages of a cycle are picked before
    any of them is handled, so two elements of one snapshot that carry
    the same id are both printed and both sound the alarm, the second
    one while its id is already in [seen_ids]. *)
Lemma same_id_twice_in_one_snapshot :
  let b := bubble "[09:11, 1/1/2024] Bob: " "this is Urgent" in
  map msg_id (shown (quiet_cycle [b; b])) =
    ["[09:11, 1/1/2024] Bob:|this is Urgent";
     "[09:11, 1/1/2024] Bob:|this is Urgent"]
  /\ (monitor short_cfg [quiet_cycle [b; b]] ∅).1.2 =
     [Sleep 50;
      Print (MessageLine "Unknown" "this is Urgent");
      Print (KeywordMatched "urgent"); Print PlayingAlarm;
      Beep 1400 300; Sleep 50;
      Print (MessageLine "Unknown" "this is Urgent");
      Print (KeywordMatched "urgent"); Print PlayingAlarm;
      Beep 1400 300; Sleep 50;
      PollSleep]
  /\ elements (monitor short_cfg [quiet_cycle [b; b]] ∅).1.1 =
     ["[09:11, 1/1/2024] Bob:|this is Urgent"].
Proof. vm_compute. done. Qed.

(** C2, amended.  During polling [seen_ids] only grows, however the run
    goes.  The new messages of a cycle are those of its snapshot whose
    id was not in [seen_ids] when the snapshot was taken: over cycles
    that run to their end, what is printed and alerted is exactly what
    handling those messages puts out, in order.  No such message has an
    id that was in [seen_ids] at the start, or that an earlier cycle has
    shown; so an id is printed and alerted in one cycle at most, and,
    when the ids within each snapshot are distinct, once at most. *)
Theorem seen_ids_grow_and_gate c os seen :
  seen ⊆ (monitor c os seen).1.1
  /\ (forallb calm_cycle os = true ->
      outputs (monitor c os seen).1.2 = flat_map (expected c) (news os seen))
  /\ (forall m, m ∈ news os seen -> msg_id m ∉ seen)
  /\ (forall before after,
         os = before ++ after ->
         exists seen',
           news os seen = news before seen ++ news after seen'
           /\ seen ⊆ seen'
           /\ Forall (fun o => ids (shown o) ⊆ seen') before
           /\ forall m, m ∈ news after seen' -> msg_id m ∉ seen')
  /\ (Forall (fun o => NoDup (map msg_id (shown o))) os ->
      NoDup (map msg_id (news os seen))).
Proof.
  split; [apply grows_monitor|]. split; [|split; [|split]].
  - intros H. destruct (monitor_run c os H seen) as (seen' & t & -> & Ho). done.
  - intros m. apply news_unseen.
  - intros before after ->.
    destruct (news_app before after seen) as (seen' & E & Hsub & Hall).
    exists seen'. repeat split; try done. intros m. apply news_unseen.
  - apply news_NoDup.
Qed.

Lemma seen_ids_grow_and_gate_witness :
  outputs (monitor short_cfg (w_cycles scenario) ∅).1.2 =
    [Print (MessageLine "Unknown" "hello");
     Print (MessageLine "Unknown" "this is Urgent");
     Print (KeywordMatched "urgent"); Print PlayingAlarm]
  /\ NoDup (map msg_id (news (w_cycles scenario) ∅)).
Proof.
  destruct (seen_ids_grow_and_gate short_cfg (w_cycles scenario) ∅)
    as (_ & Hout & _ & _ & Hnodup).
  split.
  - rewrite (Hout eq_refl). vm_compute. reflexivity.
  - apply Hnodup. apply (bool_decide_unpack _). vm_compute. exact I.
Defined.

(** C1, as stated, fails: [get_messages] enumerates the message
    elements outside its [try], and the only handler around the loop is
    the one of [main], outside [while True].  When the enumeration fails
    in a cycle, the loop ends there: the next cycle, which would have
    sounded the alarm, is never run, and [main] prints the error and
    quits. *)
Lemma enumeration_failure_ends_loop :
  let later := quiet_cycle [bubble "[09:11, 1/1/2024] Bob: " "urgent"] in
  monitor short_cfg [lost_cycle; later] ∅ =
    (∅, [Sleep 50], Raise (Exc (WebDriverException "chrome not reachable")))
  /\ main short_cfg (quiet_world [] [lost_cycle; later]) ∅ =
     (∅,
      [Print InfoWaiting; Print InfoReady; Sleep 1500; Print (InfoOpening "g");
       Sleep 200; Sleep 1000; Print (InfoOpened 1); Print ProbeReport;
       Print DebugStarted; Print (DebugSeeded 0);
       Sleep 50;
       Print (ErrorLine (WebDriverException "chrome not reachable")); Quit],
      Ok tt).
Proof. split; vm_compute; reflexivity. Qed.

(** C1, amended.  During polling, an exception raised by the scroll hint
    or by the read of a single message element is caught inside the
    cycle, without any line being printed for it, and does not end the
    loop: when the enumeration of the elements, the sound device and the
    sleep of that cycle work, the cycle runs to its end and the loop
    goes on with the next cycle.  An error raised by the enumeration of
    the message elements is not caught inside the cycle: it ends the
    loop, and the handler of [main] prints it once. *)
Theorem poll_cycle_failures c o rest seen :
  calm_scroll (c_scroll o) = true ->
  (steady o = true ->
   exists ts ta,
     poll_cycle c o seen = (ids (shown o) ∪ seen, ts ++ ta ++ [PollSleep], Ok tt)
     /\ (ts = [] \/ ts = [Sleep 50])
     /\ for_each (List.filter (unseen seen) (shown o)) (alert c (c_sound o)) seen
        = (ids (shown o) ∪ seen, ta, Ok tt)
     /\ monitor c (o :: rest) seen =
        (let '(seen2, t2, r) := monitor c rest (ids (shown o) ∪ seen) in
         (seen2, (ts ++ ta ++ [PollSleep]) ++ t2, r)))
  /\ (forall e,
         c_found o = Throws e ->
         exists ts,
           (ts = [] \/ ts = [Sleep 50])
           /\ monitor c (o :: rest) seen = (seen, ts, Raise e)
           /\ forall x,
               e = Exc x ->
               handlers (monitor c (o :: rest)) seen =
               (seen, ts ++ [Print (ErrorLine x)], Ok tt)).
Proof.
  intros Hs. split.
  - intros Hst.
    destruct (poll_cycle_run c o seen Hs Hst) as (ts & ta & E & Hts & Ea & _).
    exists ts, ta. repeat split; try done. by rewrite monitor_cons, E.
  - intros e He. destruct (scroll_run _ seen Hs) as (ts & Es & Hts).
    assert (E : monitor c (o :: rest) seen = (seen, ts, Raise e)).
    { rewrite monitor_cons. unfold poll_cycle, bind at 1.
      rewrite Es. unfold bind at 1. unfold get_messages, bind at 1.
      rewrite He. cbn. by rewrite app_nil_r. }
    exists ts. repeat split; try done.
    intros x ->. unfold handlers. by rewrite E.
Qed.

Lemma poll_cycle_failures_witness :
  (exists ts ta,
      poll_cycle short_cfg bumpy_cycle ∅ =
      (ids (shown bumpy_cycle) ∪ ∅, ts ++ ta ++ [PollSleep], Ok tt)
      /\ (ts = [] \/ ts = [Sleep 50])
      /\ for_each (List.filter (unseen ∅) (shown bumpy_cycle))
           (alert short_cfg (c_sound bumpy_cycle)) ∅
         = (ids (shown bumpy_cycle) ∪ ∅, ta, Ok tt)
      /\ monitor short_cfg [bumpy_cycle; quiet_cycle []] ∅ =
         (let '(seen2, t2, r) :=
            monitor short_cfg [quiet_cycle []] (ids (shown bumpy_cycle) ∪ ∅) in
          (seen2, (ts ++ ta ++ [PollSleep]) ++ t2, r)))
  /\ handlers (monitor short_cfg [lost_cycle; quiet_cycle []]) ∅ =
     (∅, [Sleep 50; Print (ErrorLine (WebDriverException "chrome not reachable"))],
      Ok tt).
Proof.
  split.
  - destruct (poll_cycle_failures short_cfg bumpy_cycle [quiet_cycle []] ∅ eq_refl)
      as (H & _).
    exact (H eq_refl).
  - destruct (poll_cycle_failures short_cfg lost_cycle [quiet_cycle []] ∅ eq_refl)
      as (_ & H).
    destruct (H _ eq_refl) as (ts & Hts & E & Hh).
    rewrite (Hh _ eq_refl). vm_compute in E. by injection E as <-.
Defined.

End Loop.

(** ** Seeding *)

Section Seeding.

Lemma for_each_add_run ms seen :
  for_each ms (fun m => add_seen (msg_id m)) seen = (ids ms ∪ seen, [], Ok tt).
Proof.
  revert seen. induction ms as [|m ms IH]; intros seen.
  - simpl. unfold ret, ids. simpl. f_equal. f_equal. set_solver.
  - cbn [for_each]. unfold bind, add_seen at 1. rewrite IH, ids_cons.
    f_equal. f_equal. set_solver.
Qed.

(** One seeding pass forgets what [seen_ids] held, prints nothing, and
    ends as its read of the snapshot ends. *)
Lemma seed_run found seen :
  seed found seen =
  match (get_messages found ∅).2 with
  | Ok ms => (ids ms, [], Ok tt)
  | Raise e => (∅, [], Raise e)
  | Pending => (∅, [], Pending)
  end.
Proof.
  unfold seed, bind, set_seen. rewrite (get_messages_frame found ∅).
  destruct (get_messages found ∅).2 as [ms|e|]; [|done..].
  rewrite for_each_add_run. f_equal. f_equal. set_solver.
Qed.

Lemma seed_calm blocks seen :
  forallb calm blocks = true ->
  seed (Returns blocks) seen = (ids (omap readable blocks), [], Ok tt).
Proof. intros H. rewrite seed_run. by rewrite get_messages_calm. Qed.

Lemma seeding_run first second seen :
  (seed first seen).2 = Ok tt ->
  seeding first second seen =
  match (get_messages second ∅).2 with
  | Ok ms => (ids ms, [Print DebugStarted; Print (DebugSeeded (size (ids ms)))], Ok tt)
  | Raise e => (∅, [Print DebugStarted], Raise e)
  | Pending => (∅, [Print DebugStarted], Pending)
  end.
Proof.
  unfold seeding, bind. rewrite (seed_run first seen).
  destruct (get_messages first ∅).2 as [ms1|e1|]; [|done..]. intros _.
  unfold print, emit. rewrite seed_run.
  by destruct (get_messages second ∅).2 as [ms|e|].
Qed.

(** C3.  Seeding adds every id of the snapshot it reads to [seen_ids]
    and prints no message line and sounds no alarm: each pass is silent,
    and the two passes together put out the two debug lines only and
    leave in [seen_ids] the ids of the snapshot read last.  Whatever the
    later cycles show, no message handled as new in them carries one of
    those ids; so the messages present at the start cause no alert, and
    a cycle that shows that same snapshot again has nothing new. *)
Theorem seeding_is_silent c first blocks os seen0 :
  forallb calm first = true ->
  forallb calm blocks = true ->
  let seeded := ids (omap readable blocks) in
  seed (Returns first) seen0 = (ids (omap readable first), [], Ok tt)
  /\ seeding (Returns first) (Returns blocks) seen0 =
     (seeded, [Print DebugStarted; Print (DebugSeeded (size seeded))], Ok tt)
  /\ (forall m, m ∈ omap readable blocks -> msg_id m ∈ seeded)
  /\ (forallb calm_cycle os = true ->
      outputs
        ((seeding (Returns first) (Returns blocks) ;; monitor c os) seen0).1.2 =
      flat_map (expected c) (news os seeded))
  /\ (forall m, m ∈ news os seeded -> msg_id m ∉ seeded)
  /\ (forall o, shown o = omap readable blocks -> news [o] seeded = []).
Proof.
  intros Hfirst Hblocks seeded.
  assert (E1 : seed (Returns first) seen0 = (ids (omap readable first), [], Ok tt))
    by by apply seed_calm.
  assert (E2 : seeding (Returns first) (Returns blocks) seen0 =
               (seeded, [Print DebugStarted; Print (DebugSeeded (size seeded))], Ok tt)).
  { rewrite seeding_run by by rewrite E1. by rewrite get_messages_calm. }
  split; [done|]. split; [done|]. split; [|split; [|split]].
  - intros m. apply elem_of_ids.
  - intros Hos. unfold bind. rewrite E2.
    destruct (monitor_run c os Hos seeded) as (seen' & t & -> & Ho).
    cbn [fst snd]. by rewrite outputs_app, Ho.
  - intros m. apply news_unseen.
  - intros o Ho. cbn [news]. rewrite app_nil_r, Ho.
    assert (H : forall l, Forall (fun m => msg_id m ∈ seeded) l ->
                  List.filter (unseen seeded) l = []).
    { induction 1 as [|m l Hm _ IH]; [done|]. cbn [List.filter].
      unfold unseen at 1. rewrite bool_decide_eq_false_2; [done|].
      intros Hn. by apply Hn. }
    rewrite H; [done|]. apply Forall_forall. intros m. apply elem_of_ids.
Qed.

Lemma seeding_is_silent_witness :
  seeding (Returns history) (Returns history) ∅ =
    (ids (omap readable history),
     [Print DebugStarted; Print (DebugSeeded (size (ids (omap readable history))))],
     Ok tt)
  /\ news [quiet_cycle history] (ids (omap readable history)) = []
  /\ outputs
       ((seeding (Returns history) (Returns history) ;;
         monitor short_cfg [quiet_cycle history; quiet_cycle history]) ∅).1.2 = [].
Proof.
  destruct (seeding_is_silent short_cfg history history
              [quiet_cycle history; quiet_cycle history] ∅ eq_refl eq_refl)
    as (_ & H2 & _ & H4 & _ & H6).
  split; [exact H2|]. split; [apply H6; reflexivity|].
  rewrite (H4 eq_refl). vm_compute. reflexivity.
Defined.

(** *** Seeding twice and seeding once *)

Lemma undiagnosed_app t1 t2 :
  undiagnosed (t1 ++ t2) = undiagnosed t1 ++ undiagnosed t2.
Proof. apply List.filter_app. Qed.

Lemma same_behaviour_refl {A} (x : gset string * list event * result A) :
  same_behaviour x x.
Proof. by repeat split. Qed.

Lemma same_behaviour_bind_r {A B} (m : Prog A) (k1 k2 : A -> Prog B) seen :
  (forall a s, same_behaviour (k1 a s) (k2 a s)) ->
  same_behaviour (bind m k1 seen) (bind m k2 seen).
Proof.
  intros H. unfold bind. destruct (m seen) as [[s1 t1] [a|e|]];
    [|apply same_behaviour_refl..].
  destruct (H a s1) as (Hs & Hr & Ht).
  destruct (k1 a s1) as [[s2 t2] r2], (k2 a s1) as [[s3 t3] r3].
  unfold same_behaviour. cbn [fst snd] in *.
  by rewrite !undiagnosed_app, Ht, Hs, Hr.
Qed.

Lemma same_behaviour_bind_l {A B} (m1 m2 : Prog A) (k : A -> Prog B) seen :
  same_behaviour (m1 seen) (m2 seen) ->
  same_behaviour (bind m1 k seen) (bind m2 k seen).
Proof.
  intros (Hs & Hr & Ht). unfold bind.
  destruct (m1 seen) as [[s1 t1] r1], (m2 seen) as [[s2 t2] r2].
  cbn [fst snd] in *. subst s2 r2. unfold same_behaviour.
  destruct r1 as [a|e|]; [|done..].
  destruct (k a s1) as [[s3 t3] r3]. cbn [fst snd].
  by rewrite !undiagnosed_app, Ht.
Qed.

Lemma same_behaviour_handlers (m1 m2 : Prog unit) seen :
  same_behaviour (m1 seen) (m2 seen) ->
  same_behaviour (handlers m1 seen) (handlers m2 seen).
Proof.
  intros (Hs & Hr & Ht). unfold handlers.
  destruct (m1 seen) as [[s1 t1] r1], (m2 seen) as [[s2 t2] r2].
  cbn [fst snd] in *. subst s2 r2. unfold same_behaviour.
  destruct r1 as [a|[e|]|]; cbn [fst snd]; by rewrite ?undiagnosed_app, Ht.
Qed.

Lemma same_behaviour_finally (m1 m2 f : Prog unit) seen :
  same_behaviour (m1 seen) (m2 seen) ->
  same_behaviour (finally m1 f seen) (finally m2 f seen).
Proof.
  intros (Hs & Hr & Ht). unfold finally.
  destruct (m1 seen) as [[s1 t1] r1], (m2 seen) as [[s2 t2] r2].
  cbn [fst snd] in *. subst s2 r2. unfold same_behaviour.
  destruct r1 as [a|e|]; [| |done];
    destruct (f s1) as [[s3 t3] r3]; cbn [fst snd];
    by rewrite !undiagnosed_app, Ht.
Qed.

(** The two passes over one snapshot against the single pass. *)
Lemma seeding_same found seen :
  same_behaviour (seeding found found seen) (seed found seen).
Proof.
  unfold seeding, bind, print, emit, get_seen. rewrite !seed_run.
  destruct (get_messages found ∅).2 as [ms|e|] eqn:E; [|by repeat split..].
  rewrite seed_run, E. by repeat split.
Qed.

(** C9.  When both seeding passes read the same initial snapshot, [main]
    behaves as the version that seeds once: the two runs end with the
    same [seen_ids] and the same result, and put out the same events,
    the two debug lines of the seeding apart; this holds for every
    snapshot, also one whose read fails, and for every later cycle.  The
    first pass is dead: once it has returned, the reset discards what it
    added, and the state and result after seeding are those of the
    second pass alone. *)
Theorem seeding_twice_is_seeding_once c w seen0 :
  (w_seed_first w = w_seed_second w ->
   same_behaviour (main c w seen0) (main_seed_once c w seen0))
  /\ (forall first second seen,
         (seed first seen).2 = Ok tt ->
         (seeding first second seen).1.1 = (seed second seen).1.1
         /\ (seeding first second seen).2 = (seed second seen).2).
Proof.
  split.
  - intros Hsame. unfold main, main_seed_once.
    apply same_behaviour_bind_r. intros _ s0.
    apply same_behaviour_finally, same_behaviour_handlers.
    unfold main_try, main_try_seed_once. apply same_behaviour_bind_r.
    intros _ s. apply same_behaviour_bind_l. rewrite Hsame.
    apply seeding_same.
  - intros first second seen Hfirst. rewrite seeding_run by done.
    rewrite seed_run. by destruct (get_messages second ∅).2.
Qed.

Lemma seeding_twice_is_seeding_once_witness :
  same_behaviour
    (main short_cfg (quiet_world history (w_cycles scenario)) ∅)
    (main_seed_once short_cfg (quiet_world history (w_cycles scenario)) ∅)
  /\ (seeding (Returns history) (Returns []) ∅).1.1 = (seed (Returns []) ∅).1.1.
Proof.
  split.
  - destruct (seeding_twice_is_seeding_once short_cfg
                (quiet_world history (w_cycles scenario)) ∅) as (H & _).
    exact (H eq_refl).
  - destruct (seeding_twice_is_seeding_once short_cfg scenario ∅) as (_ & H).
    destruct (H (Returns history) (Returns []) ∅ eq_refl) as (H1 & _).
    exact H1.
Defined.

End Seeding.

(** ** Keywords that normalise to nothing, and the sender *)

Section Edges.

Lemma trace_bind_print {B} l (k : unit -> Prog B) seen :
  (bind (print l) k seen).1.2 = Print l :: (k tt seen).1.2.
Proof. unfold bind, print, emit. by destruct (k tt seen) as [[? ?] ?]. Qed.

Lemma trace_bind_add_seen {B} i (k : unit -> Prog B) seen :
  (bind (add_seen i) k seen).1.2 = (k tt ({[ i ]} ∪ seen)).1.2.
Proof. unfold bind, add_seen. by destruct (k tt _) as [[? ?] ?]. Qed.

(** C10, amended.  When the keyword list holds a keyword that normalises
    to the empty string, the matcher never returns [None]: for every
    text it returns the first keyword of the list that occurs in the
    normalised text, and that is this keyword whenever no keyword before
    it occurs.  A new message whose returned keyword is not the empty
    string then gets its keyword line, after which the alarm is
    started. *)
Theorem blank_keyword_always_hits text kws before kw after :
  kws = before ++ kw :: after ->
  normalize kw = "" ->
  (exists hit, keyword_hit text kws = Some hit /\ matches text hit)
  /\ (Forall (fun k => ~ matches text k) before -> keyword_hit text kws = Some kw)
  /\ (forall c dev m seen hit,
         keywords c = kws -> msg_text m = text ->
         keyword_hit text kws = Some hit -> hit <> "" ->
         exists t,
           (alert c dev m seen).1.2 =
           Print (MessageLine (msg_sender m) text)
             :: Print (KeywordMatched hit) :: Print PlayingAlarm :: t).
Proof.
  intros Hkws Hblank.
  split; [|split].
  - destruct (keyword_hit text kws) as [hit|] eqn:E.
    + exists hit. split; [done|].
      apply keyword_hit_Some in E as (b & a & _ & Hm & _). done.
    + exfalso. apply keyword_hit_None in E.
      rewrite Hkws in E. apply Forall_app in E as [_ Hk].
      inversion Hk as [|? ? Hn _]; subst. apply Hn. by apply blank_matches.
  - intros Hbefore. apply keyword_hit_Some. exists before, after.
    split; [done|]. split; [by apply blank_matches | done].
  - intros c dev m seen hit Hc Hm Hhit Hne.
    unfold alert. rewrite trace_bind_add_seen, trace_bind_print, Hm, Hc, Hhit.
    destruct hit as [|x hit]; [done|]. cbn [Py.truthy].
    rewrite trace_bind_print. unfold play_alarm. rewrite trace_bind_print.
    by eexists.
Qed.

Lemma blank_keyword_always_hits_witness :
  keyword_hit "nothing here" ["urgent"; "  "; "alert"] = Some "  "
  /\ exists t,
       (alert {| group_name := "g"; keywords := ["urgent"; "  "; "alert"];
                 alarm_beeps := 1; beep_freq_hz := 1400; beep_ms := 300;
                 wav_path := None |}
              working_sound ("id", "Bob", "nothing here") ∅).1.2 =
       Print (MessageLine "Bob" "nothing here")
         :: Print (KeywordMatched "  ") :: Print PlayingAlarm :: t.
Proof.
  destruct (blank_keyword_always_hits "nothing here" ["urgent"; "  "; "alert"]
              ["urgent"] "  " ["alert"] eq_refl eq_refl) as (_ & H2 & H3).
  assert (Hhit : keyword_hit "nothing here" ["urgent"; "  "; "alert"] = Some "  ").
  { apply H2. constructor; [|constructor].
    intros Hm. apply matches_contains in Hm. discriminate Hm. }
  split; [exact Hhit|].
  apply (H3 {| group_name := "g"; keywords := ["urgent"; "  "; "alert"];
               alarm_beeps := 1; beep_freq_hz := 1400; beep_ms := 300;
               wav_path := None |}
            working_sound ("id", "Bob", "nothing here") ∅ "  "
            eq_refl eq_refl Hhit).
  discriminate.
Defined.

(** The empty keyword itself is returned, counts as false in
    [if hit:], and hides the keywords behind it. *)
Example empty_keyword_is_silent :
  keyword_hit "this is urgent" [""; "urgent"] = Some ""
  /\ (alert {| group_name := "g"; keywords := [""; "urgent"];
               alarm_beeps := 1; beep_freq_hz := 1400; beep_ms := 300;
               wav_path := None |}
            working_sound ("id", "Bob", "this is urgent") ∅).1.2 =
     [Print (MessageLine "Bob" "this is urgent")].
Proof. split; reflexivity. Qed.

(** How the sender is read off the trimmed metadata: after the leftmost
    ["] "], up to the leftmost [": "] behind it. *)
Lemma parse_sender_cases meta :
  (Py.contains "] " meta = false -> parse_sender meta = "Unknown")
  /\ (forall before after,
         Py.partition "] " meta = Some (before, after) ->
         (Py.contains ": " after = false -> parse_sender meta = "Unknown")
         /\ (forall name rest,
                Py.partition ": " after = Some (name, rest) ->
                parse_sender meta = Py.strip name)).
Proof.
  unfold parse_sender, Py.split1. split.
  - by intros ->.
  - intros before after Hp.
    assert (Hc : Py.contains "] " meta = true).
    { destruct (Py.contains "] " meta) eqn:E; [done|].
      apply partition_None in E. congruence. }
    rewrite Hc, Hp. cbn [List.last]. split.
    + by intros ->.
    + intros name rest Hp2.
      assert (Hc2 : Py.contains ": " after = true).
      { destruct (Py.contains ": " after) eqn:E; [done|].
        apply partition_None in E. congruence. }
      by rewrite Hc2, Hp2.
Qed.

(** C6 at the metadata the comment in [get_messages] names,
    ["[HH:MM, DD/MM/YYYY] Name: "]: the metadata is trimmed before the
    sender is looked for, so the blank behind the colon is gone, [": "]
    no longer occurs, and the sender is ["Unknown"]; on the metadata as
    the page gives it the same lines would have found ["Alice"]. *)
Theorem sender_of_trimmed_metadata :
  Py.strip "[09:10, 1/1/2024] Alice: " = "[09:10, 1/1/2024] Alice:"
  /\ parse_sender (Py.strip "[09:10, 1/1/2024] Alice: ") = "Unknown"
  /\ get_messages (Returns [bubble "[09:10, 1/1/2024] Alice: " "hi"]) ∅ =
     (∅, [], Ok [("[09:10, 1/1/2024] Alice:|hi", "Unknown", "hi")])
  /\ parse_sender "[09:10, 1/1/2024] Alice: " = "Alice".
Proof. repeat split; reflexivity. Qed.

End Edges.

(** ** The examples of the specification *)

Example normalize_example : normalize "  Alert   NOW " = "alert now".
Proof. reflexivity. Qed.

Example keyword_hit_loose :
  keyword_hit "this is turgently fine" ["alert"; "urgent"] = Some "urgent".
Proof. reflexivity. Qed.

Example split1_example :
  Py.split1 "] " "[09:10, 1/1/2024] Alice: hi" = ["[09:10, 1/1/2024"; "Alice: hi"].
Proof. reflexivity. Qed.

Example words_example : Py.words "  Alert   NOW " = ["Alert"; "NOW"].
Proof. reflexivity. Qed.

(** The end-to-end scenario: an empty seed, then [A], then [A; B] twice. *)
Example scenario_run :
  outputs (main short_cfg scenario ∅).1.2 =
    [Print (MessageLine "Unknown" "hello");
     Print (MessageLine "Unknown" "this is Urgent");
     Print (KeywordMatched "urgent"); Print PlayingAlarm]
  /\ (main short_cfg scenario ∅).2 = Pending.
Proof. split; vm_compute; reflexivity. Qed.

(** ** More on the matcher *)

Section Matcher.

Local Notation "a +++ b" := (String.append a b) (at level 60, right associativity).

Lemma normalize_folded s : normalize s = Py.join_sp (folded s).
Proof. unfold folded. by rewrite normalize_words, lower_join_sp. Qed.

Lemma words_only_space s : Py.words s = [] <-> only_space s = true.
Proof.
  induction s as [|c r IH]; [done|]. cbn [Py.words only_space].
  destruct (Py.is_space c) eqn:Ec; [by rewrite IH|]. cbn [andb]. split; [|done].
  destruct (Py.starts_ws r); [done|]. by destruct (Py.words r).
Qed.

Lemma join_sp_empty ws :
  Forall (fun w => is_word w = true) ws -> Py.join_sp ws = "" -> ws = [].
Proof.
  intros H E. destruct H as [|w ws Hw _]; [done|].
  destruct (join_sp_word_nonempty w ws Hw) as (c & r & E'). congruence.
Qed.

Lemma folded_are_words s : Forall (fun w => is_word w = true) (folded s).
Proof.
  unfold folded. rewrite <- words_lower. apply words_are_words.
Qed.

Lemma normalize_empty s : normalize s = "" <-> only_space s = true.
Proof.
  rewrite <- words_only_space, normalize_folded. split.
  - intros E. apply join_sp_empty in E; [|apply folded_are_words].
    unfold folded in E. by destruct (Py.words s).
  - intros E. unfold folded. by rewrite E.
Qed.

Lemma startswith_empty p : Py.startswith p "" = true <-> p = "".
Proof. by destruct p. Qed.

Lemma keyword_scan_empty_text kws : keyword_scan "" kws = first_blank kws.
Proof.
  unfold first_blank. induction kws as [|k kws IH]; [done|].
  cbn [keyword_scan List.find Py.contains]. rewrite orb_false_r, IH.
  unfold blank. by destruct (normalize k).
Qed.

(** X1. [normalize] gives the empty string exactly for the texts made of
    whitespace only (the empty text among them); for such a text the
    matcher returns the first keyword that itself normalises to the
    empty string, and [None] when there is none; and with no keywords
    configured it returns [None] for every text. *)
Theorem blank_text_and_no_keywords s kws :
  (normalize s = "" <-> only_space s = true)
  /\ (only_space s = true -> keyword_hit s kws = first_blank kws)
  /\ keyword_hit s [] = None.
Proof.
  split; [apply normalize_empty|]. split; [|done].
  intros H. apply normalize_empty in H. unfold keyword_hit. rewrite H.
  apply keyword_scan_empty_text.
Qed.

Lemma blank_text_and_no_keywords_witness :
  keyword_hit "  " ["alert"; " "; "urgent"] = Some " "
  /\ keyword_hit "  " ["alert"; "urgent"] = None.
Proof.
  split.
  - destruct (blank_text_and_no_keywords "  " ["alert"; " "; "urgent"])
      as (_ & H & _).
    exact (H eq_refl).
  - destruct (blank_text_and_no_keywords "  " ["alert"; "urgent"])
      as (_ & H & _).
    exact (H eq_refl).
Defined.

Lemma keyword_scan_map f t kws :
  (forall k, normalize (f k) = normalize k) ->
  keyword_scan t (map f kws) = f <$> keyword_scan t kws.
Proof.
  intros Hf. induction kws as [|k kws IH]; [done|].
  cbn [map keyword_scan]. rewrite Hf, IH.
  by destruct (Py.contains (normalize k) t).
Qed.

(** X2. The matcher sees a text and a keyword only through their words
    in lower case: two texts with the same lower-cased words get the
    same answer, whatever their case and their whitespace, and
    rewriting every keyword into one with the same lower-cased words
    changes the answer only by that rewriting. *)
Theorem matcher_sees_folded_words text text' kws :
  (folded text = folded text' -> keyword_hit text kws = keyword_hit text' kws)
  /\ (forall f : string -> string,
         (forall k, folded (f k) = folded k) ->
         keyword_hit text (map f kws) = f <$> keyword_hit text kws)
  /\ folded (Py.lower text) = folded text
  /\ folded (normalize text) = folded text.
Proof.
  split; [|split; [|split]].
  - intros H. unfold keyword_hit. by rewrite !normalize_folded, H.
  - intros f Hf. unfold keyword_hit. apply keyword_scan_map.
    intros k. by rewrite !normalize_folded, Hf.
  - unfold folded. rewrite words_lower, <- list_fmap_compose.
    apply list_fmap_ext. intros _ w _. apply lower_idem.
  - unfold folded at 1. rewrite normalize_folded.
    rewrite words_join_sp by apply folded_are_words.
    unfold folded. rewrite <- list_fmap_compose.
    apply list_fmap_ext. intros _ w _. apply lower_idem.
Qed.

Lemma matcher_sees_folded_words_witness :
  keyword_hit two_lines ["Call Me"; "urgent"]
  = keyword_hit " urgent: CALL me " ["Call Me"; "urgent"]
  /\ keyword_hit "x" (map Py.lower ["Call Me"; "X"; "urgent"])
     = Py.lower <$> keyword_hit "x" ["Call Me"; "X"; "urgent"].
Proof.
  split.
  - destruct (matcher_sees_folded_words two_lines " urgent: CALL me " ["Call Me"; "urgent"]) as (H & _).
    exact (H eq_refl).
  - destruct (matcher_sees_folded_words "x" "x" ["Call Me"; "X"; "urgent"])
      as (_ & H & Hl & _).
    apply H. intros k.
    destruct (matcher_sees_folded_words k k []) as (_ & _ & Hk & _). exact Hk.
Defined.

Lemma join_sp_app x y :
  Py.join_sp (x ++ y) =
  match x, y with
  | [], _ => Py.join_sp y
  | _, [] => Py.join_sp x
  | _, _ => Py.join_sp x +++ String " " (Py.join_sp y)
  end.
Proof.
  induction x as [|w x IH]; [done|]. destruct y as [|v y].
  { by rewrite app_nil_r. }
  rewrite <- app_comm_cons, join_sp_cons, IH.
  destruct x as [|w' x]; [done|]. rewrite <- app_comm_cons.
  rewrite (join_sp_cons w (w' :: x)). by rewrite append_assoc, append_cons.
Qed.

Lemma substring_join_sp a ws b :
  substring (Py.join_sp ws) (Py.join_sp (a ++ ws ++ b)).
Proof.
  unfold substring. destruct ws as [|w ws].
  { by exists "", (Py.join_sp (a ++ [] ++ b)). }
  assert (Hr : exists y, Py.join_sp ((w :: ws) ++ b) = Py.join_sp (w :: ws) +++ y).
  { rewrite join_sp_app. destruct b; [|by eexists].
    exists "". by rewrite append_empty_r. }
  destruct Hr as (y & Hy). rewrite join_sp_app. destruct a as [|v a].
  - exists "", y. by rewrite Hy.
  - cbn [app] in *. exists (Py.join_sp (v :: a) +++ " "), y.
    rewrite Hy, !append_assoc. done.
Qed.

(** X3. A keyword of several words matches across any whitespace and
    any case: whenever the words of the keyword, in lower case, occur as
    consecutive words of the text, the keyword occurs in the text, and
    the matcher returns a keyword. *)
Theorem phrase_matches_across_whitespace text kw before ws after kws :
  Py.words text = before ++ ws ++ after ->
  map Py.lower ws = folded kw ->
  matches text kw
  /\ (In kw kws -> exists hit, keyword_hit text kws = Some hit).
Proof.
  intros Ht Hk.
  assert (Hm : matches text kw).
  { unfold matches. rewrite !normalize_folded. unfold folded at 2.
    rewrite Ht, !map_app, Hk. apply substring_join_sp. }
  split; [done|]. intros Hin.
  destruct (keyword_hit text kws) as [hit|] eqn:E; [by eexists|].
  apply keyword_hit_None in E. rewrite Forall_forall in E.
  destruct (E kw); [by apply list_elem_of_In | done].
Qed.

Lemma phrase_matches_across_whitespace_witness :
  matches broken_lines "call  Me"
  /\ exists hit, keyword_hit broken_lines ["alert"; "call  Me"] = Some hit.
Proof.
  destruct (phrase_matches_across_whitespace broken_lines "call  Me" ["Please"] ["CALL"; "me"] ["now"] ["alert"; "call  Me"]
    eq_refl eq_refl) as (Hm & Hh).
  split; [exact Hm|]. apply Hh. right. left. reflexivity.
Defined.

End Matcher.

(** ** More on the snapshot reader *)

Section ReaderEdges.

Local Notation "a +++ b" := (String.append a b) (at level 60, right associativity).

(** *** [strip] *)

Lemma rstrip_cons c s :
  Py.rstrip (String c s) =
  match Py.rstrip s with
  | "" => if Py.is_space c then "" else String c ""
  | x => String c x
  end.
Proof. reflexivity. Qed.

Lemma rstrip_idem s : Py.rstrip (Py.rstrip s) = Py.rstrip s.
Proof.
  induction s as [|c r IH]; [done|]. rewrite rstrip_cons.
  destruct (Py.rstrip r) as [|d r'] eqn:E.
  - destruct (Py.is_space c) eqn:Ec; [done|]. rewrite rstrip_cons. by rewrite Ec.
  - by rewrite rstrip_cons, IH.
Qed.

Lemma rstrip_head s d r : Py.rstrip s = String d r -> exists r0, s = String d r0.
Proof.
  destruct s as [|c s]; [done|]. rewrite rstrip_cons.
  destruct (Py.rstrip s); [destruct (Py.is_space c)|]; intros [= <- _]; by eexists.
Qed.

Lemma lstrip_head s : Py.starts_ws (Py.lstrip s) = false \/ Py.lstrip s = "".
Proof.
  induction s as [|c r IH]; [by right|]. cbn [Py.lstrip].
  destruct (Py.is_space c) eqn:Ec; [done|]. left. by simpl.
Qed.

Lemma lstrip_fixed s : Py.starts_ws s = false \/ s = "" -> Py.lstrip s = s.
Proof.
  intros [H | ->]; [|done]. destruct s as [|c r]; [done|].
  simpl in *. by rewrite H.
Qed.

Lemma strip_idem s : Py.strip (Py.strip s) = Py.strip s.
Proof.
  unfold Py.strip. rewrite (lstrip_fixed (Py.rstrip (Py.lstrip s))).
  - apply rstrip_idem.
  - destruct (Py.rstrip (Py.lstrip s)) as [|d r] eqn:E; [by right|]. left.
    apply rstrip_head in E as (r0 & E).
    destruct (lstrip_head s) as [H | H]; rewrite E in H; [|done]. done.
Qed.

Lemma rstrip_app a b :
  Py.rstrip (a +++ b) =
  match Py.rstrip b with
  | "" => Py.rstrip a
  | b' => a +++ b'
  end.
Proof.
  induction a as [|c a IH]; rewrite ?append_nil, ?append_cons.
  - by destruct (Py.rstrip b).
  - rewrite !rstrip_cons, IH.
    destruct (Py.rstrip b) as [|d b']; [done|]. rewrite append_cons.
    by destruct a.
Qed.

Lemma free_of_lstrip c s : free_of c s = true -> free_of c (Py.lstrip s) = true.
Proof.
  induction s as [|d r IH]; [done|]. cbn [Py.lstrip free_of].
  intros [H1 H2]%andb_true_iff. destruct (Py.is_space d); [by apply IH|].
  simpl. by rewrite H1, H2.
Qed.

Lemma free_of_rstrip c s : free_of c s = true -> free_of c (Py.rstrip s) = true.
Proof.
  induction s as [|d r IH]; [done|]. rewrite rstrip_cons. cbn [free_of].
  intros [H1 H2]%andb_true_iff. specialize (IH H2).
  destruct (Py.rstrip r) as [|e r'].
  - destruct (Py.is_space d); [done|]. simpl. by rewrite H1.
  - change (free_of c (String d (String e r')))
      with (negb (Ascii.eqb c d) && free_of c (String e r')).
    by rewrite H1, IH.
Qed.

Lemma free_of_strip c s : free_of c s = true -> free_of c (Py.strip s) = true.
Proof. intros H. by apply free_of_rstrip, free_of_lstrip. Qed.

(** *** Message ids *)

Lemma id_injective m1 t1 m2 t2 :
  free_of bar m1 = true -> free_of bar m2 = true ->
  m1 +++ String bar t1 = m2 +++ String bar t2 ->
  m1 = m2 /\ t1 = t2.
Proof.
  revert m2. induction m1 as [|c m1 IH]; intros m2 H1 H2 E.
  - destruct m2 as [|d m2]; rewrite ?append_nil, ?append_cons in E.
    + by injection E.
    + injection E as <- _. cbn [free_of] in H2.
      by rewrite Ascii.eqb_refl in H2.
  - destruct m2 as [|d m2]; rewrite ?append_nil, ?append_cons in E.
    + injection E as -> _. cbn [free_of] in H1.
      by rewrite Ascii.eqb_refl in H1.
    + injection E as -> E. cbn [free_of] in H1, H2.
      apply andb_true_iff in H1 as [_ H1]. apply andb_true_iff in H2 as [_ H2].
      destruct (IH m2 H1 H2 E) as [-> ->]. done.
Qed.

(** X4. The id tells two messages apart whenever their metadata holds
    no ["|"]: two elements that are read with the same id then have the
    same trimmed metadata and text, hence are the same message.  With a
    ["|"] in the metadata this fails: metadata ["a|b"] with text ["c"]
    and metadata ["a"] with text ["b|c"] share the id ["a|b|c"]. *)
Theorem ids_tell_messages_apart b1 b2 raw1 raw2 m1 m2 :
  pre_plain_text b1 = Returns raw1 ->
  pre_plain_text b2 = Returns raw2 ->
  free_of bar (or_empty raw1) = true ->
  free_of bar (or_empty raw2) = true ->
  readable b1 = Some m1 ->
  readable b2 = Some m2 ->
  (msg_id m1 = msg_id m2 -> m1 = m2)
  /\ (exists x y,
         readable (bubble "a|b" "c") = Some x
         /\ readable (bubble "a" "b|c") = Some y
         /\ msg_id x = msg_id y /\ msg_text x <> msg_text y).
Proof.
  intros Hp1 Hp2 Hf1 Hf2 Hr1 Hr2. split.
  - unfold readable in Hr1, Hr2. rewrite Hp1 in Hr1. rewrite Hp2 in Hr2.
    destruct (visible_text b1) as [rt1|]; [|done].
    destruct (visible_text b2) as [rt2|]; [|done].
    destruct (Py.truthy (Py.strip (or_empty rt1))); [|done].
    destruct (Py.truthy (Py.strip (or_empty rt2))); [|done].
    injection Hr1 as <-. injection Hr2 as <-. unfold msg_id. cbn [fst snd].
    intros E. apply id_injective in E as [-> ->]; [done|by apply free_of_strip..].
  - by eexists _, _.
Qed.

Lemma ids_tell_messages_apart_witness :
  exists m1 m2,
    readable (bubble " [09:10, 1/1/2024] Alice: " "hi ") = Some m1
    /\ readable (bubble "[09:10, 1/1/2024] Alice: " " hi") = Some m2
    /\ m1 = m2.
Proof.
  exists ("[09:10, 1/1/2024] Alice:|hi", "Unknown", "hi"),
         ("[09:10, 1/1/2024] Alice:|hi", "Unknown", "hi").
  split; [reflexivity|]. split; [reflexivity|].
  destruct (ids_tell_messages_apart
              (bubble " [09:10, 1/1/2024] Alice: " "hi ")
              (bubble "[09:10, 1/1/2024] Alice: " " hi")
              (Some " [09:10, 1/1/2024] Alice: ") (Some "[09:10, 1/1/2024] Alice: ")
              ("[09:10, 1/1/2024] Alice:|hi", "Unknown", "hi")
              ("[09:10, 1/1/2024] Alice:|hi", "Unknown", "hi")
              eq_refl eq_refl eq_refl eq_refl eq_refl eq_refl) as (H & _).
  exact (H eq_refl).
Defined.

(** *** What a read returns *)

Lemma get_messages_loop_classify blocks acc seen :
  get_messages_loop blocks acc seen =
  (seen, [],
   if existsb interrupted blocks then Raise KeyboardInterrupt
   else Ok (acc ++ omap readable blocks)).
Proof.
  revert acc. induction blocks as [|b rest IH]; intros acc.
  - simpl. unfold ret. by rewrite app_nil_r.
  - cbn [get_messages_loop existsb]. unfold bind. rewrite guarded_extract_run.
    unfold interrupted at 1.
    destruct (pre_plain_text b) as [rm|[e|]] eqn:Em,
             (visible_text b) as [rt|[e'|]] eqn:Et; try done;
      cbn [orb]; rewrite IH; cbn [omap list_omap];
      (destruct (readable b) eqn:Er; [by rewrite <- app_assoc | done]).
Qed.

Lemma get_messages_classify blocks seen :
  get_messages (Returns blocks) seen =
  (seen, [],
   if existsb interrupted blocks then Raise KeyboardInterrupt
   else Ok (omap readable blocks)).
Proof.
  unfold get_messages, bind, call, ret.
  rewrite (get_messages_loop_classify blocks [] seen).
  by destruct (existsb interrupted blocks).
Qed.

(** X5. Reading a snapshot whose elements were enumerated never fails
    with an [Exception] and never changes [seen_ids] or prints: either
    the read of some element lets a [KeyboardInterrupt] out, and then
    the whole read raises it and the messages collected so far are
    dropped, or the read returns the messages of the readable elements
    in order. *)
Theorem get_messages_interrupt_or_list blocks seen :
  get_messages (Returns blocks) seen =
  (seen, [],
   if existsb interrupted blocks then Raise KeyboardInterrupt
   else Ok (omap readable blocks))
  /\ (forall before b after,
         blocks = before ++ b :: after -> interrupted b = true ->
         (get_messages (Returns blocks) seen).2 = Raise KeyboardInterrupt).
Proof.
  pose proof (get_messages_classify blocks seen) as E.
  split; [done|]. intros before b after -> Hb. rewrite E. cbn [snd].
  rewrite existsb_app. cbn [existsb]. by rewrite Hb, orb_true_r.
Qed.

Lemma get_messages_interrupt_or_list_witness :
  (get_messages
     (Returns [bubble "[09:10, 1/1/2024] Alice: " "hello";
               {| pre_plain_text := Returns (Some "[09:11, 1/1/2024] Bob: ");
                  visible_text := Throws KeyboardInterrupt |};
               stale_bubble]) ∅).2
  = Raise KeyboardInterrupt.
Proof.
  destruct (get_messages_interrupt_or_list
     [bubble "[09:10, 1/1/2024] Alice: " "hello";
      {| pre_plain_text := Returns (Some "[09:11, 1/1/2024] Bob: ");
         visible_text := Throws KeyboardInterrupt |};
      stale_bubble] ∅) as (_ & H).
  exact (H [bubble "[09:10, 1/1/2024] Alice: " "hello"] _ [stale_bubble]
           eq_refl eq_refl).
Defined.

Lemma length_omap_readable blocks : length (omap readable blocks) <= length blocks.
Proof.
  induction blocks as [|b rest IH]; [done|]. cbn [omap list_omap length].
  destruct (readable b); cbn [length]; lia.
Qed.

Lemma readable_shape b m :
  readable b = Some m ->
  msg_text m <> "" /\ trimmed (msg_text m)
  /\ exists meta,
       trimmed meta
       /\ msg_id m = meta +++ String bar (msg_text m)
       /\ msg_sender m = parse_sender meta.
Proof.
  unfold readable. destruct (pre_plain_text b) as [rm|]; [|done].
  destruct (visible_text b) as [rt|]; [|done].
  destruct (Py.strip (or_empty rt)) as [|c r] eqn:E; [done|].
  cbn [Py.truthy]. intros [= <-]. unfold msg_text, msg_id, msg_sender, trimmed.
  cbn [fst snd]. split; [done|]. split; [by rewrite <- E, strip_idem|].
  exists (Py.strip (or_empty rm)). split; [apply strip_idem | done].
Qed.

(** X6. Every message a read returns has a text that is not empty and
    has no whitespace at either end, an id made of the trimmed metadata,
    ["|"] and that text, and the sender parsed from the trimmed
    metadata; a read returns no more messages than there are elements.
    This holds for every read that returns, whatever failed on the way. *)
Theorem returned_messages_are_trimmed found seen ms :
  (get_messages found seen).2 = Ok ms ->
  Forall (fun m =>
            msg_text m <> "" /\ trimmed (msg_text m)
            /\ exists meta,
                 trimmed meta
                 /\ msg_id m = meta +++ String bar (msg_text m)
                 /\ msg_sender m = parse_sender meta) ms
  /\ (forall blocks, found = Returns blocks -> length ms <= length blocks).
Proof.
  destruct found as [blocks|e]; [|done].
  rewrite get_messages_classify. cbn [snd].
  destruct (existsb interrupted blocks); [done|]. intros [= <-]. split.
  - apply Forall_forall. intros m Hm. apply list_elem_of_omap in Hm as (b & _ & Hb).
    by apply readable_shape in Hb.
  - intros ? [= <-]. apply length_omap_readable.
Qed.

Lemma returned_messages_are_trimmed_witness :
  Forall (fun m =>
            msg_text m <> "" /\ trimmed (msg_text m)
            /\ exists meta,
                 trimmed meta
                 /\ msg_id m = meta +++ String bar (msg_text m)
                 /\ msg_sender m = parse_sender meta)
         [("[09:10] Al: x|hi", "Al", "hi")].
Proof.
  destruct (returned_messages_are_trimmed
              (Returns [bubble " [09:10] Al: x " " hi "; stale_bubble]) ∅
              [("[09:10] Al: x|hi", "Al", "hi")] eq_refl) as (H & _).
  exact H.
Defined.

(** *** The sender *)

Lemma partition_two x y t r :
  x <> y ->
  Py.contains (String x (String y "")) t = false ->
  Py.partition (String x (String y "")) (t +++ String x (String y r)) = Some (t, r).
Proof.
  intros Hxy. induction t as [|c t IH]; intros H.
  - rewrite append_nil. cbn. by rewrite !Ascii.eqb_refl.
  - cbn [Py.contains] in H. apply orb_false_iff in H as [Hs Hc].
    rewrite append_cons. cbn [Py.partition].
    assert (Hs' : Py.startswith (String x (String y ""))
                    (String c (t +++ String x (String y r))) = false).
    { cbn [Py.startswith] in *. destruct (Ascii.eqb x c); [|done].
      destruct t as [|d t]; rewrite ?append_nil, ?append_cons.
      - destruct (Ascii.eqb_spec y x); [congruence|done].
      - by destruct (Ascii.eqb y d). }
    rewrite Hs', (IH Hc). done.
Qed.

Lemma contains_two_snoc x y t :
  x <> y ->
  Py.contains (String x (String y "")) t = false ->
  Py.contains (String x (String y "")) (t +++ String x "") = false.
Proof.
  intros Hxy. induction t as [|c t IH]; intros H.
  - rewrite append_nil. cbn. by rewrite Ascii.eqb_refl.
  - cbn [Py.contains] in H. apply orb_false_iff in H as [Hs Hc].
    rewrite append_cons. cbn [Py.contains]. rewrite (IH Hc), orb_false_r.
    cbn [Py.startswith] in *. destruct (Ascii.eqb x c); [|done].
    destruct t as [|d t]; rewrite ?append_nil, ?append_cons.
    + destruct (Ascii.eqb_spec y x); [congruence|done].
    + by destruct (Ascii.eqb y d).
Qed.

Lemma contains_partition sep s p :
  Py.partition sep s = Some p -> Py.contains sep s = true.
Proof.
  intros H. destruct (Py.contains sep s) eqn:E; [done|].
  apply partition_None in E. congruence.
Qed.

Lemma strip_app_tail a b :
  Py.starts_ws a = false ->
  Py.strip (a +++ b) =
  match Py.rstrip b with
  | "" => Py.rstrip a
  | b' => a +++ b'
  end.
Proof.
  intros Ha. unfold Py.strip. destruct a as [|c a]; [done|].
  rewrite append_cons. cbn [Py.lstrip]. cbn [Py.starts_ws] in Ha. rewrite Ha.
  rewrite <- append_cons. apply rstrip_app.
Qed.

(** X7. For metadata in the format the page gives and the comment in
    [get_messages] names, ["[stamp] name: "], the sender comes out as
    ["Unknown"] for every stamp and every name: trimming removes the
    blank behind the colon before the sender is looked for.  The name is
    found, trimmed, exactly when something other than whitespace
    follows the [": "]: with nothing or only whitespace behind it the
    sender is ["Unknown"]. *)
Theorem sender_of_page_metadata stamp name :
  Py.contains "] " (String "[" stamp) = false ->
  Py.contains ": " name = false ->
  parse_sender (Py.strip (String "[" stamp +++ "] " +++ name +++ ": ")) = "Unknown"
  /\ (forall rest c r,
         Py.rstrip rest = String c r ->
         parse_sender
           (Py.strip (String "[" stamp +++ "] " +++ name +++ ": " +++ rest))
         = Py.strip name)
  /\ (forall rest,
         Py.rstrip rest = "" ->
         parse_sender
           (Py.strip (String "[" stamp +++ "] " +++ name +++ ": " +++ rest))
         = "Unknown").
Proof.
  intros Hstamp Hname.
  assert (Hsq : "]"%char <> " "%char) by done.
  assert (Hcol : ":"%char <> " "%char) by done.
  split; [|split].
  - assert (E : Py.strip (String "[" stamp +++ "] " +++ name +++ ": ")
                = String "[" stamp +++ "] " +++ (name +++ ":")).
    { replace (String "[" stamp +++ "] " +++ name +++ ": ")
        with ((String "[" stamp +++ "] " +++ name) +++ ": ")
        by by rewrite !append_assoc.
      rewrite strip_app_tail by done.
      change (Py.rstrip ": ") with ":". cbv beta iota.
      by rewrite !append_assoc. }
    rewrite E. unfold parse_sender, Py.split1.
    pose proof (partition_two "]" " " (String "[" stamp) (name +++ ":") Hsq Hstamp) as P.
    change (String "]" (String " " (name +++ ":"))) with ("] " +++ name +++ ":") in P.
    rewrite (contains_partition _ _ _ P), P. cbn [List.last].
    by rewrite (contains_two_snoc ":" " " name Hcol Hname).
  - intros rest c r Hrest.
    assert (E : Py.strip (String "[" stamp +++ "] " +++ name +++ ": " +++ rest)
                = String "[" stamp +++ "] " +++ (name +++ ": " +++ String c r)).
    { replace (String "[" stamp +++ "] " +++ name +++ ": " +++ rest)
        with ((String "[" stamp +++ "] " +++ name +++ ": ") +++ rest)
        by by rewrite !append_assoc.
      rewrite strip_app_tail by done. rewrite Hrest. cbv beta iota.
      by rewrite !append_assoc. }
    rewrite E. unfold parse_sender, Py.split1.
    pose proof (partition_two "]" " " (String "[" stamp)
                  (name +++ ": " +++ String c r) Hsq Hstamp) as P.
    change (String "]" (String " " (name +++ ": " +++ String c r)))
      with ("] " +++ name +++ ": " +++ String c r) in P.
    rewrite (contains_partition _ _ _ P), P. cbn [List.last].
    pose proof (partition_two ":" " " name (String c r) Hcol Hname) as Q.
    change (String ":" (String " " (String c r))) with (": " +++ String c r) in Q.
    rewrite (contains_partition _ _ _ Q), Q. done.
  - intros rest Hrest.
    assert (E : Py.strip (String "[" stamp +++ "] " +++ name +++ ": " +++ rest)
                = String "[" stamp +++ "] " +++ (name +++ ":")).
    { replace (String "[" stamp +++ "] " +++ name +++ ": " +++ rest)
        with ((String "[" stamp +++ "] " +++ name) +++ (": " +++ rest))
        by by rewrite !append_assoc.
      rewrite strip_app_tail by done.
      rewrite (rstrip_app ": " rest), Hrest.
      change (Py.rstrip ": ") with ":". cbv beta iota.
      by rewrite !append_assoc. }
    rewrite E. unfold parse_sender, Py.split1.
    pose proof (partition_two "]" " " (String "[" stamp) (name +++ ":") Hsq Hstamp) as P.
    change (String "]" (String " " (name +++ ":"))) with ("] " +++ name +++ ":") in P.
    rewrite (contains_partition _ _ _ P), P. cbn [List.last].
    by rewrite (contains_two_snoc ":" " " name Hcol Hname).
Qed.

Lemma sender_of_page_metadata_witness :
  parse_sender (Py.strip "[21:05, 31/12/2025] Bob Smith: ") = "Unknown"
  /\ parse_sender (Py.strip "[21:05, 31/12/2025] Bob Smith: hi ") = "Bob Smith".
Proof.
  destruct (sender_of_page_metadata "21:05, 31/12/2025" "Bob Smith" eq_refl eq_refl)
    as (H1 & H2 & _).
  split; [exact H1|]. exact (H2 "hi " "h"%char "i" eq_refl).
Defined.

End ReaderEdges.

(** ** More on the alarm and the scroll hint *)

Section Alarm.

Lemma beeps_tones n c seen :
  beeps n c seen =
  (seen, mjoin (replicate n [Beep (beep_freq_hz c) (beep_ms c); Sleep 50]), Ok tt).
Proof.
  induction n as [|n IH]; [done|]. cbn [beeps replicate mjoin list_join].
  unfold bind, emit. by rewrite IH.
Qed.

Lemma tones_beeps c :
  length (List.filter is_beep (tones c)) = Z.to_nat (alarm_beeps c)
  /\ Forall (fun ev => is_beep ev = true -> ev = Beep (beep_freq_hz c) (beep_ms c))
       (tones c).
Proof.
  unfold tones. induction (Z.to_nat (alarm_beeps c)) as [|n [IH1 IH2]]; [done|].
  cbn [replicate mjoin list_join app List.filter is_beep length].
  split; [f_equal; exact IH1|].
  constructor; [done|]. constructor; [done|]. exact IH2.
Qed.

(** The alarm once the tone device is out of the way. *)
Lemma play_alarm_run_full c dev seen :
  returns (beep_call dev) = true \/ (alarm_beeps c <= 0)%Z ->
  exists tail r,
    play_alarm c dev seen = (seen, Print PlayingAlarm :: tones c ++ tail, r)
    /\ match wav_wanted c, play_sound_call dev with
       | None, _ => tail = [] /\ r = Ok tt
       | Some path, Returns _ => tail = [PlaySound path] /\ r = Ok tt
       | Some path, Throws (Exc e) => tail = [Print (WarnWav e)] /\ r = Ok tt
       | Some path, Throws KeyboardInterrupt =>
           tail = [] /\ r = Raise KeyboardInterrupt
       end.
Proof.
  intros Hdev.
  assert (Htones : (match Z.to_nat (alarm_beeps c) with
                    | O => ret tt
                    | S k => call (beep_call dev) ;; beeps (S k) c
                    end) seen = (seen, tones c, Ok tt)).
  { unfold tones. destruct (Z.to_nat (alarm_beeps c)) as [|k] eqn:E; [done|].
    destruct Hdev as [Hdev | Hdev]; [|lia].
    destruct (beep_call dev) as [[]|]; [|done].
    unfold bind, call, ret. by rewrite beeps_tones. }
  unfold play_alarm, wav_wanted. unfold bind at 1 2. unfold print at 1, emit at 1.
  rewrite Htones. destruct (wav_path c) as [path|].
  - destruct (Py.truthy path).
    + unfold try_except, bind, call, emit, ret, raise, print.
      destruct (play_sound_call dev) as [[]|[e|]]; eexists _, _; (split; [reflexivity|]);
        by rewrite ?app_nil_r.
    + exists [], (Ok tt). unfold ret. by destruct (play_sound_call dev) as [[]|[e|]].
  - exists [], (Ok tt). unfold ret. by destruct (play_sound_call dev) as [[]|[e|]].
Qed.

(** X8. When the tone device works (or no beep is configured), the alarm
    sounds exactly [alarm_beeps] tones, none for zero or a negative
    number, each at the configured frequency and length and each
    followed by its pause, and leaves [seen_ids] alone.  The sound file
    is played after the tones only when a non-empty path is configured;
    an [Exception] while playing it is printed as a warning and the
    alarm still returns normally. *)
Theorem play_alarm_sounds c dev seen :
  (returns (beep_call dev) = true \/ (alarm_beeps c <= 0)%Z ->
   exists tail r,
     play_alarm c dev seen = (seen, Print PlayingAlarm :: tones c ++ tail, r)
     /\ match wav_wanted c, play_sound_call dev with
        | None, _ => tail = [] /\ r = Ok tt
        | Some path, Returns _ => tail = [PlaySound path] /\ r = Ok tt
        | Some path, Throws (Exc e) => tail = [Print (WarnWav e)] /\ r = Ok tt
        | Some path, Throws KeyboardInterrupt =>
            tail = [] /\ r = Raise KeyboardInterrupt
        end)
  /\ length (List.filter is_beep (tones c)) = Z.to_nat (alarm_beeps c)
  /\ Forall (fun ev => is_beep ev = true -> ev = Beep (beep_freq_hz c) (beep_ms c))
       (tones c)
  /\ ((alarm_beeps c <= 0)%Z -> tones c = []).
Proof.
  split; [apply play_alarm_run_full|]. destruct (tones_beeps c) as [H1 H2].
  split; [done|]. split; [done|]. intros H. unfold tones.
  by replace (Z.to_nat (alarm_beeps c)) with 0 by lia.
Qed.

Lemma play_alarm_sounds_witness :
  exists tail r,
    play_alarm {| group_name := "g"; keywords := ["urgent"]; alarm_beeps := 2;
                  beep_freq_hz := 1400; beep_ms := 300;
                  wav_path := Some "Alarm01.wav" |}
      {| beep_call := Returns tt;
         play_sound_call := Throws (Exc (RuntimeError "no such file")) |} ∅
    = (∅,
       Print PlayingAlarm
         :: [Beep 1400 300; Sleep 50; Beep 1400 300; Sleep 50] ++ tail, r)
    /\ tail = [Print (WarnWav (RuntimeError "no such file"))] /\ r = Ok tt.
Proof.
  destruct (play_alarm_sounds
              {| group_name := "g"; keywords := ["urgent"]; alarm_beeps := 2;
                 beep_freq_hz := 1400; beep_ms := 300;
                 wav_path := Some "Alarm01.wav" |}
              {| beep_call := Returns tt;
                 play_sound_call := Throws (Exc (RuntimeError "no such file")) |} ∅)
    as (H & _).
  exact (H (or_introl eq_refl)).
Defined.

Lemma play_alarm_tone_fails c dev seen e :
  (0 < alarm_beeps c)%Z ->
  beep_call dev = Throws e ->
  play_alarm c dev seen = (seen, [Print PlayingAlarm], Raise e).
Proof.
  intros Hn Hb. unfold play_alarm, bind, print, emit.
  destruct (Z.to_nat (alarm_beeps c)) as [|k] eqn:E; [lia|].
  by rewrite Hb.
Qed.

(** The scroll hint, whatever the driver does. *)
Lemma scroll_classify s seen :
  exists t r,
    scroll_chat_to_bottom s seen = (seen, t, r)
    /\ (t = [] \/ t = [Sleep 50])
    /\ (r = Ok tt \/ r = Raise KeyboardInterrupt)
    /\ (calm_scroll s = true -> r = Ok tt).
Proof.
  unfold calm_scroll, scroll_chat_to_bottom, try_except, bind, call, emit, ret, raise.
  destruct (find_composer s) as [[]|[e1|]], (composer_click s) as [[]|[e2|]],
    (key_end s) as [[]|[e3|]], (key_ctrl_end s) as [[]|[e4|]];
    cbn; eexists _, _; (split; [reflexivity|]);
    (split; [auto|]); (split; [auto|]); done.
Qed.

(** X9. The scroll hint never fails with an [Exception], whatever call
    of the driver raises one: it returns normally, prints nothing, at
    most takes its pause of 50 ms, and leaves [seen_ids] alone.  Only a
    [KeyboardInterrupt] passes through it. *)
Theorem scroll_never_fails s seen :
  exists t r,
    scroll_chat_to_bottom s seen = (seen, t, r)
    /\ (t = [] \/ t = [Sleep 50])
    /\ (r = Ok tt \/ r = Raise KeyboardInterrupt)
    /\ (calm_scroll s = true -> r = Ok tt).
Proof. apply scroll_classify. Qed.

Lemma scroll_never_fails_witness :
  exists t r,
    scroll_chat_to_bottom
      {| find_composer := Returns tt; composer_click := Returns tt;
         key_end := Throws (Exc StaleElementReferenceException);
         key_ctrl_end := Returns tt |} ∅ = (∅, t, r)
    /\ r = Ok tt.
Proof.
  destruct (scroll_never_fails
              {| find_composer := Returns tt; composer_click := Returns tt;
                 key_end := Throws (Exc StaleElementReferenceException);
                 key_ctrl_end := Returns tt |} ∅) as (t & r & E & _ & _ & H).
  exists t, r. split; [exact E | exact (H eq_refl)].
Defined.

(** X10. A tone device that fails ends the monitoring: when the first
    new message of a cycle matches a keyword and the tone cannot be
    played, the message line, the keyword line and the alarm line are
    out and the id is in [seen_ids], but the error leaves the loop: the
    other new messages of that cycle are neither printed nor added, no
    later cycle runs, and the sound file is not tried. *)
Theorem failing_tone_ends_monitoring c o os seen blocks m rest hit e :
  calm_scroll (c_scroll o) = true ->
  c_found o = Returns blocks ->
  existsb interrupted blocks = false ->
  List.filter (unseen seen) (omap readable blocks) = m :: rest ->
  keyword_hit (msg_text m) (keywords c) = Some hit ->
  Py.truthy hit = true ->
  (0 < alarm_beeps c)%Z ->
  beep_call (c_sound o) = Throws e ->
  exists ts,
    (ts = [] \/ ts = [Sleep 50])
    /\ monitor c (o :: os) seen =
       ({[ msg_id m ]} ∪ seen,
        ts ++ [Print (MessageLine (msg_sender m) (msg_text m));
               Print (KeywordMatched hit); Print PlayingAlarm],
        Raise e).
Proof.
  intros Hs Hf Hint Hnew Hhit Htruthy Hn Hb.
  destruct (scroll_classify (c_scroll o) seen) as (ts & r & Es & Hts & _ & Hr).
  rewrite (Hr Hs) in Es. exists ts. split; [done|].
  rewrite monitor_cons. unfold poll_cycle. unfold bind at 1. rewrite Es.
  unfold bind at 1. rewrite Hf, get_messages_classify, Hint.
  unfold bind at 1. unfold get_seen. unfold bind at 1. rewrite Hnew.
  cbn [for_each]. unfold bind at 1. unfold alert. unfold bind at 1.
  unfold add_seen at 1. unfold bind at 1. unfold print at 1, emit at 1.
  rewrite Hhit, Htruthy. unfold bind at 1. unfold print at 1, emit at 1.
  rewrite (play_alarm_tone_fails c _ _ e Hn Hb). cbn. done.
Qed.

Lemma failing_tone_ends_monitoring_witness :
  exists ts,
    (ts = [] \/ ts = [Sleep 50])
    /\ monitor short_cfg
         [{| c_scroll := smooth_scroll; c_found := Returns history;
             c_sound := {| beep_call := Throws (Exc (RuntimeError "Failed to beep"));
                           play_sound_call := Returns tt |};
             c_sleep := Returns tt |}; quiet_cycle history]
         {[ "[09:10, 1/1/2024] Alice:|hello" ]}
       = ({[ "[09:11, 1/1/2024] Bob:|this is Urgent" ]}
            ∪ {[ "[09:10, 1/1/2024] Alice:|hello" ]},
          ts ++ [Print (MessageLine "Unknown" "this is Urgent");
                 Print (KeywordMatched "urgent"); Print PlayingAlarm],
          Raise (Exc (RuntimeError "Failed to beep"))).
Proof.
  exact (failing_tone_ends_monitoring short_cfg
           {| c_scroll := smooth_scroll; c_found := Returns history;
              c_sound := {| beep_call := Throws (Exc (RuntimeError "Failed to beep"));
                            play_sound_call := Returns tt |};
              c_sleep := Returns tt |}
           [quiet_cycle history] {[ "[09:10, 1/1/2024] Alice:|hello" ]}
           history ("[09:11, 1/1/2024] Bob:|this is Urgent", "Unknown", "this is Urgent")
           [] "urgent" (Exc (RuntimeError "Failed to beep"))
           eq_refl eq_refl eq_refl eq_refl eq_refl eq_refl eq_refl eq_refl).
Defined.

End Alarm.
(** ** More on the conversation locator *)

Section LocatorEdges.

Lemma attempt_loop_interrupt tries budget :
  forall n seen k,
    n <= k < n + budget ->
    (forall i, n <= i < k -> fails (tries i)) ->
    outcome (tries k) = Raise KeyboardInterrupt ->
    exists t,
      attempt_loop tries n budget seen = (seen, t, Raise KeyboardInterrupt)
      /\ pauses t = k - n.
Proof.
  induction budget as [|rest IH]; intros n seen k Hk Hf Ho; [lia|].
  cbn [attempt_loop].
  destruct (run_attempt_run (tries n) seen) as (t & -> & Hp & _).
  destruct (decide (k = n)) as [->|Hne].
  - rewrite Ho. exists t. split; [done|]. lia.
  - destruct (Hf n) as [e He]; [lia|]. rewrite He.
    destruct (IH (S n) seen k) as (t2 & E2 & Hp2); [lia| |done|].
    { intros i Hi. apply Hf. lia. }
    rewrite E2.
    assert (Hstep : exists w ms,
      (match e with
       | StaleElementReferenceException =>
           (seen, t ++ [Print (WarnStale n); Sleep 600] ++ t2,
            @Raise unit KeyboardInterrupt)
       | _ => (seen, t ++ [Print (WarnOpenFailed n e); Sleep 800] ++ t2,
               Raise KeyboardInterrupt)
       end) = (seen, t ++ [Print w; Sleep ms] ++ t2, Raise KeyboardInterrupt)
      /\ is_pause (Sleep ms) = true).
    { destruct e; eexists _, _; split; reflexivity. }
    destruct Hstep as (w & ms & E & Hms).
    exists (t ++ [Print w; Sleep ms] ++ t2). split.
    + rewrite <- E. by destruct e.
    + unfold pauses in *. rewrite !List.filter_app, !length_app, Hp.
      cbn [List.filter]. rewrite Hms. cbn [is_pause length app]. lia.
Qed.

(** X11. A [KeyboardInterrupt] during an attempt is not retried: when
    the attempts before attempt [k] fail and attempt [k] is interrupted,
    the locator raises the interrupt at once, after the [k - 1] pauses
    of the failed attempts and without a further pause, and leaves
    [seen_ids] alone. *)
Theorem interrupt_is_not_retried tries group seen k :
  1 <= k <= 5 ->
  (forall i, 1 <= i < k -> fails (tries i)) ->
  outcome (tries k) = Raise KeyboardInterrupt ->
  exists t,
    open_group_chat tries group seen = (seen, t, Raise KeyboardInterrupt)
    /\ pauses t = k - 1.
Proof.
  intros Hk Hf Ho.
  destruct (attempt_loop_interrupt tries 5 1 seen k) as (t & E & Hp);
    [lia|done|done|].
  exists (Print (InfoOpening group) :: t). split; [|by rewrite pauses_cons_print].
  unfold open_group_chat, bind, print, emit. by rewrite E.
Qed.

Lemma interrupt_is_not_retried_witness :
  exists t,
    open_group_chat
      (fun n => if Nat.eqb n 1 then stale_attempt
                else with_primary (Throws KeyboardInterrupt) smooth_attempt)
      "g" ∅ = (∅, t, Raise KeyboardInterrupt)
    /\ pauses t = 1.
Proof.
  apply (interrupt_is_not_retried _ "g" ∅ 2); [lia| |reflexivity].
  intros i Hi. assert (i = 1) as -> by lia.
  exists StaleElementReferenceException. reflexivity.
Defined.

(** X12. The second selector of the search field is tried exactly when
    the first one times out: after a timeout of the first, the attempt
    goes on as if the first search had answered what the second
    answers; any other failure of the first search ends the attempt with
    that failure, before anything is clicked or typed. *)
Theorem fallback_only_on_timeout a seen :
  (search_primary a = Throws (Exc TimeoutException) ->
   run_attempt a seen = run_attempt (with_primary (search_fallback a) a) seen)
  /\ (forall e,
         search_primary a = Throws e -> e <> Exc TimeoutException ->
         run_attempt a seen = (seen, [], Raise e)).
Proof.
  split.
  - intros H. unfold run_attempt. rewrite H. cbn [with_primary search_primary
      search_fallback search_click keys_select_all keys_backspace
      keys_group_name chat_present chat_clickable chat_click composer_present].
    by destruct (search_fallback a) as [[]|[[]|]].
  - intros e H Hne. unfold run_attempt, bind. rewrite H.
    by destruct e as [[]|].
Qed.

Lemma fallback_only_on_timeout_witness :
  run_attempt (with_primary (Throws (Exc TimeoutException)) smooth_attempt) ∅
  = run_attempt smooth_attempt ∅
  /\ run_attempt (with_primary (Throws (Exc NoSuchElementException)) smooth_attempt) ∅
     = (∅, [], Raise (Exc NoSuchElementException)).
Proof.
  split.
  - destruct (fallback_only_on_timeout
                (with_primary (Throws (Exc TimeoutException)) smooth_attempt) ∅)
      as (H & _).
    exact (H eq_refl).
  - destruct (fallback_only_on_timeout
                (with_primary (Throws (Exc NoSuchElementException)) smooth_attempt) ∅)
      as (_ & H).
    apply (H _ eq_refl). discriminate.
Defined.

End LocatorEdges.
(** ** More on [main] and on [seen_ids] *)

Section MainEdges.

(** *** The driver is quit once, at the end *)

Lemma quits_app t1 t2 : quits (t1 ++ t2) = quits t1 + quits t2.
Proof. unfold quits. by rewrite List.filter_app, length_app. Qed.

Lemma quitless_ret {A} (a : A) : quitless (ret a).
Proof. done. Qed.

Lemma quitless_emit ev : is_quit ev = false -> quitless (emit ev).
Proof. intros H seen. unfold quits. simpl. by rewrite H. Qed.

Lemma quitless_print l : quitless (print l).
Proof. by apply quitless_emit. Qed.

Lemma quitless_raise {A} e : quitless (@raise A e).
Proof. done. Qed.

Lemma quitless_call {A} (o : obs A) : quitless (call o).
Proof. intros seen. by destruct o. Qed.

Lemma quitless_bind {A B} (m : Prog A) (k : A -> Prog B) :
  quitless m -> (forall a, quitless (k a)) -> quitless (bind m k).
Proof.
  intros Hm Hk seen. unfold bind. specialize (Hm seen).
  destruct (m seen) as [[s1 t1] [a|e|]]; cbn [fst snd] in *; [|done..].
  specialize (Hk a s1). destruct (k a s1) as [[s2 t2] r]. cbn [fst snd] in *.
  rewrite quits_app. lia.
Qed.

Lemma quitless_try_except {A} (m : Prog A) (h : exception -> Prog A) :
  quitless m -> (forall e, quitless (h e)) -> quitless (try_except m h).
Proof.
  intros Hm Hh seen. unfold try_except. specialize (Hm seen).
  destruct (m seen) as [[s1 t1] [a|[e|]|]]; cbn [fst snd] in *; [done| |done..].
  specialize (Hh e s1). destruct (h e s1) as [[s2 t2] r]. cbn [fst snd] in *.
  rewrite quits_app. lia.
Qed.

Lemma quitless_for_each {X} (l : list X) (body : X -> Prog unit) :
  (forall x, quitless (body x)) -> quitless (for_each l body).
Proof.
  intros Hb. induction l as [|x l IH]; [done|].
  apply quitless_bind; [apply Hb | by intros _].
Qed.

Lemma quitless_while_true {O} (os : list O) (body : O -> Prog unit) :
  (forall o, quitless (body o)) -> quitless (while_true os body).
Proof.
  intros Hb. induction os as [|o os IH]; [done|].
  apply quitless_bind; [apply Hb | by intros _].
Qed.

Lemma quitless_get_messages found : quitless (get_messages found).
Proof. intros seen. by rewrite get_messages_frame. Qed.

Lemma quitless_beeps n c : quitless (beeps n c).
Proof.
  intros seen. rewrite beeps_tones. cbn [fst snd].
  induction n as [|n IH]; [done|]. cbn [replicate mjoin list_join].
  rewrite quits_app. exact IH.
Qed.

Lemma quitless_play_alarm c dev : quitless (play_alarm c dev).
Proof.
  unfold play_alarm.
  apply quitless_bind; [apply quitless_print|intros _].
  apply quitless_bind.
  - destruct (Z.to_nat (alarm_beeps c)); [apply quitless_ret|].
    apply quitless_bind; [apply quitless_call | intros _; apply quitless_beeps].
  - intros _. destruct (wav_path c) as [path|]; [|apply quitless_ret].
    destruct (Py.truthy path); [|apply quitless_ret].
    apply quitless_try_except; [|intros e; apply quitless_print].
    apply quitless_bind; [apply quitless_call | by intros _; apply quitless_emit].
Qed.

Lemma quitless_alert c dev m : quitless (alert c dev m).
Proof.
  unfold alert.
  apply quitless_bind; [done|intros _].
  apply quitless_bind; [apply quitless_print|intros _].
  destruct (keyword_hit _ _) as [hit|]; [|apply quitless_ret].
  destruct (Py.truthy hit); [|apply quitless_ret].
  apply quitless_bind; [apply quitless_print | intros _; apply quitless_play_alarm].
Qed.

Lemma quitless_scroll s : quitless (scroll_chat_to_bottom s).
Proof.
  intros seen. destruct (scroll_classify s seen) as (t & r & -> & [-> | ->] & _); done.
Qed.

Lemma quitless_poll_cycle c o : quitless (poll_cycle c o).
Proof.
  unfold poll_cycle.
  apply quitless_bind; [apply quitless_scroll|intros _].
  apply quitless_bind; [apply quitless_get_messages|intros msgs].
  apply quitless_bind; [done|intros seen].
  apply quitless_bind; [apply quitless_for_each; intros m; apply quitless_alert|intros _].
  apply quitless_bind; [apply quitless_call | by intros _; apply quitless_emit].
Qed.

Lemma quitless_seed found : quitless (seed found).
Proof. intros seen. rewrite seed_run. by destruct (get_messages found ∅).2. Qed.

Lemma quitless_seeding first second : quitless (seeding first second).
Proof.
  unfold seeding.
  apply quitless_bind; [apply quitless_seed|intros _].
  apply quitless_bind; [apply quitless_print|intros _].
  apply quitless_bind; [apply quitless_seed|intros _].
  apply quitless_bind; [done | intros s; apply quitless_print].
Qed.

Lemma quitless_run_attempt a : quitless (run_attempt a).
Proof.
  unfold run_attempt.
  apply quitless_bind.
  { destruct (search_primary a) as [[]|[[]|]]; apply quitless_call. }
  intros _.
  repeat (apply quitless_bind;
          [first [apply quitless_call | by apply quitless_emit]|intros _]).
  apply quitless_call.
Qed.

Lemma quitless_attempt_loop tries budget n : quitless (attempt_loop tries n budget).
Proof.
  revert n. induction budget as [|rest IH]; intros n seen; [done|].
  cbn [attempt_loop]. pose proof (quitless_run_attempt (tries n) seen) as Hq.
  destruct (run_attempt (tries n) seen) as [[s1 t] [[]|[e|]|]]; cbn [fst snd] in *;
    [by rewrite quits_app, Hq| |done..].
  specialize (IH (S n) s1).
  destruct (attempt_loop tries (S n) rest s1) as [[s2 t2] r]. cbn [fst snd] in *.
  destruct e; cbn [fst snd]; rewrite !quits_app, Hq, IH; done.
Qed.

Lemma quitless_main_try c w : quitless (main_try c w).
Proof.
  unfold main_try, startup, wait_for_whatsapp_ready, probe_dom, open_group_chat.
  repeat (apply quitless_bind;
          [first [apply quitless_call | apply quitless_print
                 | by apply quitless_emit | apply quitless_attempt_loop
                 | apply quitless_seeding | idtac]|intros _]);
    try apply quitless_print.
  all: try (apply quitless_while_true; intros o; apply quitless_poll_cycle).
  all: repeat (apply quitless_bind;
          [first [apply quitless_call | apply quitless_print
                 | by apply quitless_emit | apply quitless_attempt_loop]|intros _]);
    first [apply quitless_print | apply quitless_call | apply quitless_attempt_loop].
Qed.

(** *** The loop has no way out but an exception *)

Lemma bind_Ok_inv {A B} (m : Prog A) (k : A -> Prog B) seen b :
  (bind m k seen).2 = Ok b ->
  exists a s1, (k a s1).2 = Ok b.
Proof.
  unfold bind. destruct (m seen) as [[s1 t1] [a|e|]]; [|done..].
  intros H. exists a, s1. by destruct (k a s1) as [[? ?] ?].
Qed.

Lemma while_true_not_Ok {O} (os : list O) (body : O -> Prog unit) seen :
  (while_true os body seen).2 <> Ok tt.
Proof.
  revert seen. induction os as [|o os IH]; intros seen; [done|].
  cbn [while_true]. intros (a & s1 & H)%bind_Ok_inv. by apply IH in H.
Qed.

Lemma main_try_not_Ok c w seen : (main_try c w seen).2 <> Ok tt.
Proof.
  unfold main_try. intros (a & s1 & H)%bind_Ok_inv.
  apply bind_Ok_inv in H as (a' & s2 & H). by apply while_true_not_Ok in H.
Qed.

(** What [build_driver] raises leaves [main] as it is. *)
Lemma main_build_fails c w seen e :
  w_build w = Throws e -> main c w seen = (seen, [], Raise e).
Proof. intros H. unfold main, build_driver, bind. by rewrite H. Qed.

Lemma main_run c w seen :
  w_build w = Returns tt ->
  main c w seen =
  let quit_result :=
    match w_quit w with
    | Throws KeyboardInterrupt => Raise KeyboardInterrupt
    | _ => Ok tt
    end in
  match main_try c w seen with
  | (s, t, Pending) => (s, t, Pending)
  | (s, t, Ok _) => (s, t ++ [Quit], quit_result)
  | (s, t, Raise KeyboardInterrupt) =>
      (s, (t ++ [Print InfoStopped]) ++ [Quit], quit_result)
  | (s, t, Raise (Exc x)) =>
      (s, (t ++ [Print (ErrorLine x)]) ++ [Quit], quit_result)
  end.
Proof.
  intros Hbuild. unfold main, build_driver. unfold bind at 1. rewrite Hbuild.
  unfold call, ret, finally, handlers.
  destruct (main_try c w seen) as [[s t] [[]|[x|]|]]; rewrite ?release_run;
    by destruct (w_quit w) as [[]|[?|]].
Qed.

(** X13. Once [build_driver] has returned, [main] never lets an
    [Exception] out, and its [try] block never simply returns: the
    monitoring ends only by an exception or an interrupt.  When it ends,
    what was printed and done so far is followed by one line, the stop
    notice for a [KeyboardInterrupt] and the error line for an
    [Exception], and then by quitting the driver, the single time the
    driver is quit in the whole run; a failure of quitting itself is
    swallowed.  What [build_driver] itself raises, before the [try], is
    not handled: it leaves [main] with nothing printed and nothing
    quit. *)
Theorem main_always_quits_once c w seen :
  (main_try c w seen).2 <> Ok tt
  /\ (forall e, w_build w = Throws e -> main c w seen = (seen, [], Raise e))
  /\ (w_build w = Returns tt ->
      (forall e, (main c w seen).2 <> Raise (Exc e))
      /\ ((main c w seen).2 = Pending <-> (main_try c w seen).2 = Pending)
      /\ ((main c w seen).2 = Pending -> quits (main c w seen).1.2 = 0)
      /\ (forall e,
             (main_try c w seen).2 = Raise e ->
             (main c w seen).1.1 = (main_try c w seen).1.1
             /\ (main c w seen).1.2 =
                (main_try c w seen).1.2
                  ++ [Print (match e with
                             | KeyboardInterrupt => InfoStopped
                             | Exc x => ErrorLine x
                             end); Quit]
             /\ quits (main c w seen).1.2 = 1
             /\ (w_quit w <> Throws KeyboardInterrupt ->
                 (main c w seen).2 = Ok tt))).
Proof.
  pose proof (main_try_not_Ok c w seen) as Hnok.
  pose proof (quitless_main_try c w seen) as Hq.
  split; [done|]. split; [intros e; apply main_build_fails|].
  intros Hbuild. rewrite (main_run c w seen Hbuild). cbv zeta.
  destruct (main_try c w seen) as [[s t] [[]|[x|]|]]; cbn [fst snd] in *.
  - done.
  - split; [by destruct (w_quit w) as [[]|[?|]]|].
    split; [by destruct (w_quit w) as [[]|[?|]]|].
    split; [by destruct (w_quit w) as [[]|[?|]]|].
    intros e [= <-]. split; [done|]. split; [by rewrite <- app_assoc|].
    split; [rewrite !quits_app, Hq; done|].
    by destruct (w_quit w) as [[]|[?|]].
  - split; [by destruct (w_quit w) as [[]|[?|]]|].
    split; [by destruct (w_quit w) as [[]|[?|]]|].
    split; [by destruct (w_quit w) as [[]|[?|]]|].
    intros e [= <-]. split; [done|]. split; [by rewrite <- app_assoc|].
    split; [rewrite !quits_app, Hq; done|].
    by destruct (w_quit w) as [[]|[?|]].
  - split; [done|]. split; [done|]. split; [done|]. done.
Qed.

Lemma main_always_quits_once_witness :
  (main short_cfg
     (quiet_world history
        [quiet_cycle history;
         {| c_scroll := smooth_scroll; c_found := Returns history;
            c_sound := working_sound; c_sleep := Throws KeyboardInterrupt |}]) ∅).1.2
  = (main_try short_cfg
       (quiet_world history
          [quiet_cycle history;
           {| c_scroll := smooth_scroll; c_found := Returns history;
              c_sound := working_sound; c_sleep := Throws KeyboardInterrupt |}]) ∅).1.2
      ++ [Print InfoStopped; Quit]
  /\ main short_cfg
       {| w_build := Throws (Exc (WebDriverException "session not created"));
          w_get := Returns tt; w_ready := Returns tt;
          w_tries := fun _ => smooth_attempt; w_probe := Returns tt;
          w_seed_first := Returns history; w_seed_second := Returns history;
          w_cycles := [quiet_cycle history]; w_quit := Returns tt |} ∅
     = (∅, [], Raise (Exc (WebDriverException "session not created"))).
Proof.
  split.
  - destruct (main_always_quits_once short_cfg
       (quiet_world history
          [quiet_cycle history;
           {| c_scroll := smooth_scroll; c_found := Returns history;
              c_sound := working_sound; c_sleep := Throws KeyboardInterrupt |}]) ∅)
      as (_ & _ & H).
    destruct (H eq_refl) as (_ & _ & _ & H4).
    destruct (H4 KeyboardInterrupt) as (_ & Ht & _); [vm_compute; reflexivity|].
    exact Ht.
  - destruct (main_always_quits_once short_cfg
       {| w_build := Throws (Exc (WebDriverException "session not created"));
          w_get := Returns tt; w_ready := Returns tt;
          w_tries := fun _ => smooth_attempt; w_probe := Returns tt;
          w_seed_first := Returns history; w_seed_second := Returns history;
          w_cycles := [quiet_cycle history]; w_quit := Returns tt |} ∅)
      as (_ & H & _).
    exact (H _ eq_refl).
Defined.

End MainEdges.
(** ** What [seen_ids] can hold *)

Section SeenIds.

Lemma state_bind_frame {A B} (m : Prog A) (k : A -> Prog B) :
  (forall s, (m s).1.1 = s) -> (forall a s, (k a s).1.1 = s) ->
  forall s, (bind m k s).1.1 = s.
Proof.
  intros Hm Hk s. unfold bind. specialize (Hm s).
  destruct (m s) as [[s1 t1] [a|e|]]; cbn [fst snd] in *; [|done..].
  specialize (Hk a s1). destruct (k a s1) as [[s2 t2] r]. cbn [fst snd] in *.
  congruence.
Qed.

Lemma state_try_frame {A} (m : Prog A) (h : exception -> Prog A) :
  (forall s, (m s).1.1 = s) -> (forall e s, (h e s).1.1 = s) ->
  forall s, (try_except m h s).1.1 = s.
Proof.
  intros Hm Hh s. unfold try_except. specialize (Hm s).
  destruct (m s) as [[s1 t1] [a|[e|]|]]; cbn [fst snd] in *; [done| |done..].
  specialize (Hh e s1). destruct (h e s1) as [[s2 t2] r]. cbn [fst snd] in *.
  congruence.
Qed.

Lemma call_frame {A} (o : obs A) s : (call o s).1.1 = s.
Proof. by destruct o. Qed.

(** The alarm leaves [seen_ids] alone, however it ends. *)
Lemma play_alarm_frame c dev s : (play_alarm c dev s).1.1 = s.
Proof.
  revert s. unfold play_alarm.
  apply state_bind_frame; [done|intros _].
  apply state_bind_frame.
  - destruct (Z.to_nat (alarm_beeps c)) as [|k]; [done|].
    apply state_bind_frame; [apply call_frame|]. intros _ s.
    by rewrite beeps_tones.
  - intros _. destruct (wav_path c) as [path|]; [|done].
    destruct (Py.truthy path); [|done].
    apply state_try_frame; [|done].
    apply state_bind_frame; [apply call_frame | done].
Qed.

(** Handling a new message adds its id, and nothing else, however the
    alarm ends. *)
Lemma alert_state c dev m s : (alert c dev m s).1.1 = {[ msg_id m ]} ∪ s.
Proof.
  unfold alert, bind, add_seen, print, emit.
  destruct (keyword_hit (msg_text m) (keywords c)) as [hit|]; [|done].
  destruct (Py.truthy hit); [|done].
  pose proof (play_alarm_frame c dev ({[ msg_id m ]} ∪ s)) as H.
  by destruct (play_alarm c dev ({[ msg_id m ]} ∪ s)) as [[? ?] ?].
Qed.

Lemma for_each_alert_within c dev ms s :
  (for_each ms (alert c dev) s).1.1 ⊆ ids ms ∪ s.
Proof.
  revert s. induction ms as [|m ms IH]; intros s; [set_solver|].
  cbn [for_each]. unfold bind. pose proof (alert_state c dev m s) as Ha.
  destruct (alert c dev m s) as [[s1 t1] [[]|e|]]; cbn [fst snd] in *;
    subst s1; rewrite ids_cons; [|set_solver..].
  specialize (IH ({[ msg_id m ]} ∪ s)).
  destruct (for_each ms (alert c dev) ({[ msg_id m ]} ∪ s)) as [[s2 t2] r].
  cbn [fst snd] in *. set_solver.
Qed.

Lemma ids_filter_subseteq (f : message -> bool) ms : ids (List.filter f ms) ⊆ ids ms.
Proof.
  induction ms as [|m ms IH]; [done|]. cbn [List.filter].
  destruct (f m); rewrite !ids_cons; set_solver.
Qed.

Lemma poll_cycle_within c o seen :
  (poll_cycle c o seen).1.1 ⊆ ids (shown o) ∪ seen.
Proof.
  unfold poll_cycle. unfold bind at 1.
  destruct (scroll_classify (c_scroll o) seen) as (ts & r & -> & _ & [-> | ->] & _);
    [|set_solver].
  unfold bind at 1. unfold shown.
  destruct (c_found o) as [blocks|e]; [|set_solver].
  rewrite get_messages_classify.
  destruct (existsb interrupted blocks); [set_solver|].
  unfold bind at 1. unfold get_seen. unfold bind at 1.
  pose proof (for_each_alert_within c (c_sound o)
                (List.filter (unseen seen) (omap readable blocks)) seen) as Hw.
  pose proof (ids_filter_subseteq (unseen seen) (omap readable blocks)) as Hf.
  destruct (for_each _ _ seen) as [[s1 t1] [[]|e|]]; cbn [fst snd] in *;
    [|set_solver..].
  unfold bind, call, emit, ret, raise.
  destruct (c_sleep o) as [[]|e]; cbn [fst snd]; set_solver.
Qed.

Lemma monitor_within c os seen :
  (monitor c os seen).1.1 ⊆ all_shown os ∪ seen.
Proof.
  revert seen. induction os as [|o os IH]; intros seen; [set_solver|].
  rewrite monitor_cons. pose proof (poll_cycle_within c o seen) as Hc.
  unfold all_shown. cbn [map union_list foldr].
  destruct (poll_cycle c o seen) as [[s1 t1] [[]|e|]]; cbn [fst snd] in *;
    [|set_solver..].
  specialize (IH s1). unfold all_shown in IH.
  destruct (monitor c os s1) as [[s2 t2] r]. cbn [fst snd] in *. set_solver.
Qed.

Lemma monitor_calm_state c os :
  forallb calm_cycle os = true ->
  forall seen, (monitor c os seen).1.1 = all_shown os ∪ seen.
Proof.
  induction os as [|o os IH]; intros H seen.
  - unfold all_shown. simpl. set_solver.
  - cbn [forallb] in H. apply andb_true_iff in H as [Ho Hos].
    unfold calm_cycle in Ho. apply andb_true_iff in Ho as [Hs Hst].
    destruct (poll_cycle_run c o seen Hs Hst) as (ts & ta & E & _).
    rewrite monitor_cons, E. specialize (IH Hos (ids (shown o) ∪ seen)).
    destruct (monitor c os (ids (shown o) ∪ seen)) as [[s2 t2] r].
    cbn [fst snd] in *. subst s2. unfold all_shown. cbn [map union_list foldr].
    set_solver.
Qed.

(** X14. Polling puts into [seen_ids] nothing but ids of messages that
    a snapshot has shown: however the run goes, every id in [seen_ids]
    was there before or belongs to a message shown in one of the cycles.
    When the cycles run to their end, [seen_ids] holds exactly the
    former ids and the ids of every message shown. *)
Theorem seen_ids_hold_shown_ids c os seen :
  (monitor c os seen).1.1 ⊆ all_shown os ∪ seen
  /\ (forallb calm_cycle os = true ->
      (monitor c os seen).1.1 = all_shown os ∪ seen).
Proof.
  split; [apply monitor_within|]. intros H. by apply monitor_calm_state.
Qed.

Lemma seen_ids_hold_shown_ids_witness :
  (monitor short_cfg (w_cycles scenario) ∅).1.1
  = all_shown (w_cycles scenario) ∪ ∅.
Proof.
  destruct (seen_ids_hold_shown_ids short_cfg (w_cycles scenario) ∅) as (_ & H).
  exact (H eq_refl).
Defined.

(** X15. The first seeding pass is run although its result is thrown
    away: when its read of the page raises, [main] ends there, with
    [seen_ids] empty, nothing more printed, no second read and no
    polling, whatever the second read would have returned; the run of
    [main], its driver built, then ends with the stop or error line and
    the quit. *)
Theorem first_seeding_read_can_abort c w seen s0 t0 e :
  startup c w seen = (s0, t0, Ok tt) ->
  (get_messages (w_seed_first w) ∅).2 = Raise e ->
  main_try c w seen = (∅, t0, Raise e)
  /\ (w_build w = Returns tt ->
      (main c w seen).1.2 =
      t0 ++ [Print (match e with
                    | KeyboardInterrupt => InfoStopped
                    | Exc x => ErrorLine x
                    end); Quit]).
Proof.
  intros Hs He.
  assert (E : main_try c w seen = (∅, t0, Raise e)).
  { unfold main_try. unfold bind at 1. rewrite Hs. unfold bind at 1.
    unfold seeding. unfold bind at 1. rewrite seed_run, He. cbn.
    by rewrite app_nil_r. }
  split; [done|]. intros Hbuild. rewrite main_run, E by done. cbv zeta.
  destruct e as [x|]; cbn [fst snd]; by rewrite <- app_assoc.
Qed.

Lemma first_seeding_read_can_abort_witness :
  main_try short_cfg
    {| w_build := Returns tt; w_get := Returns tt; w_ready := Returns tt;
       w_tries := fun _ => smooth_attempt; w_probe := Returns tt;
       w_seed_first := Throws (Exc (WebDriverException "unknown error"));
       w_seed_second := Returns history;
       w_cycles := [quiet_cycle history]; w_quit := Returns tt |} ∅
  = (∅,
     [Print InfoWaiting; Print InfoReady; Sleep 1500; Print (InfoOpening "g");
      Sleep 200; Sleep 1000; Print (InfoOpened 1); Print ProbeReport],
     Raise (Exc (WebDriverException "unknown error"))).
Proof.
  destruct (first_seeding_read_can_abort short_cfg
    {| w_build := Returns tt; w_get := Returns tt; w_ready := Returns tt;
       w_tries := fun _ => smooth_attempt; w_probe := Returns tt;
       w_seed_first := Throws (Exc (WebDriverException "unknown error"));
       w_seed_second := Returns history;
       w_cycles := [quiet_cycle history]; w_quit := Returns tt |} ∅ ∅
    [Print InfoWaiting; Print InfoReady; Sleep 1500; Print (InfoOpening "g");
     Sleep 200; Sleep 1000; Print (InfoOpened 1); Print ProbeReport]
    (Exc (WebDriverException "unknown error")) eq_refl eq_refl) as (H & _).
  exact H.
Defined.

End SeenIds.

(** ** Bounds of the locator, and messages that are not lost *)

Section Bounds.

Local Open Scope Z_scope.

Lemma slept_app t1 t2 : slept (t1 ++ t2) = slept t1 + slept t2.
Proof.
  induction t1 as [|ev t1 IH]; [done|]. destruct ev; cbn [app slept]; lia.
Qed.

Ltac next_step :=
  match goal with
  | |- context [match ?f ?a with Returns _ => _ | Throws _ => _ end] =>
      destruct (f a) as [[]|[[]|]]
  end; cbn.

Lemma run_attempt_slept a seen : 0 <= slept (run_attempt a seen).1.2 <= 1200.
Proof.
  unfold run_attempt, bind, call, emit, ret, raise.
  destruct (search_primary a) as [[]|[[]|]]; cbn;
    try lia; repeat (next_step; try lia).
Qed.

Lemma attempt_loop_bounds tries budget :
  forall n seen,
    (pauses (attempt_loop tries n budget seen).1.2 <= budget)%nat
    /\ 0 <= slept (attempt_loop tries n budget seen).1.2 <= 2000 * Z.of_nat budget.
Proof.
  induction budget as [|rest IH]; intros n seen; [cbn; lia|].
  cbn [attempt_loop].
  destruct (run_attempt_run (tries n) seen) as (t & E & Hp & _).
  pose proof (run_attempt_slept (tries n) seen) as Hs. rewrite E in *.
  cbn [fst snd] in Hs.
  destruct (outcome (tries n)) as [[]|[e|]|]; cbn [fst snd].
  - unfold pauses in *. rewrite List.filter_app, length_app, Hp, slept_app.
    cbn. lia.
  - destruct (IH (S n) seen) as (Hp2 & Hs2).
    destruct (attempt_loop tries (S n) rest seen) as [[s2 t2] r].
    cbn [fst snd] in *. unfold pauses in *.
    destruct e; cbn [fst snd]; rewrite !List.filter_app, !length_app, !slept_app, Hp;
      cbn; lia.
  - rewrite Hp. lia.
  - rewrite Hp. lia.
Qed.

(** X16. The locator is bounded: whatever the driver does, it comes to
    an end after at most five attempts, with at most five pauses between
    and after them, having slept at most ten seconds of its own (the
    waits inside the driver apart), and it leaves [seen_ids] alone. *)
Theorem open_group_chat_is_bounded tries group seen :
  (pauses (open_group_chat tries group seen).1.2 <= 5)%nat
  /\ 0 <= slept (open_group_chat tries group seen).1.2 <= 10000
  /\ (open_group_chat tries group seen).1.1 = seen
  /\ (open_group_chat tries group seen).2 <> Pending.
Proof.
  destruct (attempt_loop_bounds tries 5 1 seen) as (Hp & Hs).
  destruct (attempt_loop_spec tries 5 1 seen) as (t & r & E & Hr).
  unfold open_group_chat, bind, print, emit. rewrite E in *. cbn [fst snd] in *.
  split; [done|]. split; [cbn [app slept]; lia|]. split; [done|]. by destruct r.
Qed.

Local Close Scope Z_scope.

(** *** No new message is lost *)

Lemma elem_of_ids_inv i ms : i ∈ ids ms -> exists m, m ∈ ms /\ msg_id m = i.
Proof.
  unfold ids. intros (m & -> & Hm)%elem_of_list_to_set%list_elem_of_fmap.
  by exists m.
Qed.

Lemma news_complete os seen o m :
  o ∈ os -> m ∈ shown o -> msg_id m ∉ seen ->
  exists m', m' ∈ news os seen /\ msg_id m' = msg_id m.
Proof.
  revert seen. induction os as [|o1 rest IH]; intros seen Ho Hm Hseen.
  { by apply elem_of_nil in Ho. }
  cbn [news].
  assert (Hfirst : forall x, x ∈ shown o1 -> msg_id x = msg_id m ->
            exists m', m' ∈ List.filter (unseen seen) (shown o1) ++
                              news rest (ids (shown o1) ∪ seen)
                       /\ msg_id m' = msg_id m).
  { intros x Hx Hid. exists x. split; [|done]. apply elem_of_app. left.
    apply list_elem_of_In, List.filter_In. split; [by apply list_elem_of_In|].
    unfold unseen. apply bool_decide_eq_true. by rewrite Hid. }
  apply elem_of_cons in Ho as [-> | Ho]; [by apply (Hfirst m)|].
  destruct (decide (msg_id m ∈ ids (shown o1))) as [Hin | Hnin].
  - apply elem_of_ids_inv in Hin as (x & Hx & Hid). by apply (Hfirst x).
  - destruct (IH (ids (shown o1) ∪ seen) Ho Hm) as (m' & Hm' & Hid); [set_solver|].
    exists m'. split; [|done]. apply elem_of_app. by right.
Qed.

(** X17. No new message is lost: over cycles that run to their end,
    every message that some snapshot shows and whose id was not in
    [seen_ids] at the start is handled as new in some cycle, under its
    id, and the message line of that id is printed; a message skipped in
    one cycle because its read failed is therefore printed as soon as a
    later snapshot shows it. *)
Theorem shown_messages_are_printed c os seen o m :
  forallb calm_cycle os = true ->
  o ∈ os -> m ∈ shown o -> msg_id m ∉ seen ->
  exists m',
    msg_id m' = msg_id m
    /\ m' ∈ news os seen
    /\ In (Print (MessageLine (msg_sender m') (msg_text m')))
          (monitor c os seen).1.2.
Proof.
  intros Hos Ho Hm Hseen.
  destruct (news_complete os seen o m Ho Hm Hseen) as (m' & Hm' & Hid).
  exists m'. split; [done|]. split; [done|].
  destruct (monitor_run c os Hos seen) as (seen' & t & E & Hout).
  rewrite E. cbn [fst snd].
  assert (Hin : In (Print (MessageLine (msg_sender m') (msg_text m'))) (outputs t)).
  { rewrite Hout. apply in_flat_map. exists m'.
    split; [by apply list_elem_of_In|]. unfold expected. by left. }
  unfold outputs in Hin. apply List.filter_In in Hin. tauto.
Qed.

Lemma shown_messages_are_printed_witness :
  exists m',
    msg_id m' = "[09:11, 1/1/2024] Bob:|this is Urgent"
    /\ m' ∈ news [bumpy_cycle; quiet_cycle history] ∅
    /\ In (Print (MessageLine (msg_sender m') (msg_text m')))
          (monitor short_cfg [bumpy_cycle; quiet_cycle history] ∅).1.2.
Proof.
  apply (shown_messages_are_printed short_cfg [bumpy_cycle; quiet_cycle history] ∅
           (quiet_cycle history)
           ("[09:11, 1/1/2024] Bob:|this is Urgent", "Unknown", "this is Urgent")).
  - reflexivity.
  - apply elem_of_cons. right. apply elem_of_cons. by left.
  - apply elem_of_cons. right. apply elem_of_cons. by left.
  - apply not_elem_of_empty.
Defined.

End Bounds.
